(** * MCP firmware handler: CRC-8, SLIP framing and frame processing

    Shallow embedding of [src/mcp/mcp.hpp] (class [MCPHandler]) and of
    [MCPHandler::process_frame] (the copy in the blinker sketch and the one
    in [mcp_process_frame.hpp] are the same text).

    Bytes ([uint8_t]) are integers of [Z]; the conversion to [uint8_t] that C
    performs on assignment is written [uint8].  The two 256-byte arrays are
    lists updated by index, [frame_pos] is an [int] kept as [Z].  The handler
    mutates its members and writes to [Serial]; both are threaded through a
    small state-and-trace monad [M]. *)

From Stdlib Require Import ZArith Ascii String Lia.
From stdpp Require Import base tactics option list numbers gmap.

Local Open Scope Z_scope.

(** ** Protocol constants *)

Definition SLIP_END     : Z := 0xC0.
Definition SLIP_ESC     : Z := 0xDB.
Definition SLIP_ESC_END : Z := 0xDC.
Definition SLIP_ESC_ESC : Z := 0xDD.
Definition SLIP_CLEAR   : Z := 0xDE.

Definition MAX_FRAME_SIZE : Z := 256.

Inductive MCPState : Set :=
| MCP_IDLE
| MCP_RECEIVING
| MCP_ESCAPED.

(** Conversion of an [int] value to [uint8_t]. *)
Definition uint8 (x : Z) : Z := x mod 256.

(** A character literal as the byte [Serial.write] receives. *)
Definition chr (c : ascii) : Z := Z.of_N (N_of_ascii c).

(** [data[i]] for an array held as a list.  A read past the end is outside
    the C semantics; the model reads 0 there. *)
Definition rd (data : list Z) (i : Z) : Z := data !!! Z.to_nat i.

(** [buf[i] = b].  A store outside the array is outside the C semantics; the
    model leaves the array as it is. *)
Definition wr (buf : list Z) (i : Z) (b : Z) : list Z :=
  if bool_decide (0 <= i) then <[Z.to_nat i := b]> buf else buf.

(** The bytes [data[i], ..., data[i+n-1]] that a loop over a span reads. *)
Fixpoint span (data : list Z) (i : Z) (n : nat) : list Z :=
  match n with
  | O => []
  | S n' => rd data i :: span data (i + 1) n'
  end.

(** ** CRC-8 *)

(** Body of the inner [for (j ...)] loop of [crc8]. *)
Definition crc8_bit (crc : Z) : Z :=
  if negb (Z.land crc 0x80 =? 0)
  then uint8 (Z.lxor (Z.shiftl crc 1) 0x07)
  else uint8 (Z.shiftl crc 1).

(** Body of the outer [for (i ...)] loop: [crc ^= data[i]], then eight
    rounds. *)
Definition crc8_byte (crc b : Z) : Z :=
  Nat.iter 8 crc8_bit (uint8 (Z.lxor crc b)).

(** The outer loop, [n] iterations left, index [i]. *)
Fixpoint crc8_loop (data : list Z) (n : nat) (i : Z) (crc : Z) : Z :=
  match n with
  | O => crc
  | S n' => crc8_loop data n' (i + 1) (crc8_byte crc (rd data i))
  end.

(** [uint8_t crc8(const uint8_t* data, int len)]. *)
Definition crc8 (data : list Z) (len : Z) : Z :=
  crc8_loop data (Z.to_nat len) 0 0x00.

(** The reference pseudocode of the wire format, word for word:
    [crc = 0; for b in bytes: crc ^= b; repeat 8 times: crc = (crc << 1) ^ 7
    if crc & 0x80 else crc << 1; crc &= 0xFF]. *)
Definition crc8_ref_round (crc : Z) : Z :=
  Z.land (if Z.land crc 0x80 =? 0 then Z.shiftl crc 1
          else Z.lxor (Z.shiftl crc 1) 0x07) 0xFF.

Definition crc8_ref (bytes : list Z) : Z :=
  fold_left (fun crc b => Nat.iter 8 crc8_ref_round (Z.lxor crc b)) bytes 0x00.

(** ** The handler object and its effects *)

Record MCPHandler : Type := mkMCPHandler {
  frame_buffer : list Z;
  frame_pos : Z;
  state : MCPState;
  response_buffer : list Z
}.

(** What a run of the handler does, in order. *)
Inductive event : Type :=
| SerialWrite (b : Z)              (* Serial.write(b) *)
| FrameStore (i : Z) (b : Z)       (* frame_buffer[i] = b *)
| ProcessFrame (frame : list Z)    (* process_frame() entered on frame_buffer[0..frame_pos) *)
| Dispatch (cmd : list Z).         (* MCPBindings::dispatch called on the command bytes *)

(** Member functions: read and update the object, append to the trace. *)
Definition M (A : Type) : Type := MCPHandler -> A * MCPHandler * list event.

#[global] Instance M_ret : MRet M := fun A a h => (a, h, []).
#[global] Instance M_bind : MBind M := fun A B k m h =>
  let '(a, h1, t1) := m h in
  let '(b, h2, t2) := k a h1 in
  (b, h2, t1 ++ t2).

Definition get_frame_pos : M Z := fun h => (frame_pos h, h, []).
Definition get_state : M MCPState := fun h => (state h, h, []).
Definition get_frame_buffer : M (list Z) := fun h => (frame_buffer h, h, []).
Definition get_response_buffer : M (list Z) := fun h => (response_buffer h, h, []).

Definition set_frame_pos (p : Z) : M () := fun h =>
  ((), mkMCPHandler (frame_buffer h) p (state h) (response_buffer h), []).
Definition set_state (s : MCPState) : M () := fun h =>
  ((), mkMCPHandler (frame_buffer h) (frame_pos h) s (response_buffer h), []).
Definition set_response_buffer (rb : list Z) : M () := fun h =>
  ((), mkMCPHandler (frame_buffer h) (frame_pos h) (state h) rb, []).

Definition log (es : list event) : M () := fun h => ((), h, es).

Definition serial_write (b : Z) : M () := log [SerialWrite b].

(** [frame_buffer[i] = b]. *)
Definition frame_store (i b : Z) : M () := fun h =>
  ((), mkMCPHandler (wr (frame_buffer h) i b) (frame_pos h) (state h)
         (response_buffer h), [FrameStore i b]).

(** The handler after a member function ran, and what it did. *)
Definition exec (m : M ()) (h : MCPHandler) : MCPHandler := snd (fst (m h)).
Definition trace (m : M ()) (h : MCPHandler) : list event := snd (m h).

(** Projections of a trace. *)
Definition wire (t : list event) : list Z :=
  omap (fun e => match e with SerialWrite b => Some b | _ => None end) t.
Definition emitted (t : list event) : list (list Z) :=
  omap (fun e => match e with ProcessFrame f => Some f | _ => None end) t.
Definition stores (t : list event) : list Z :=
  omap (fun e => match e with FrameStore i _ => Some i | _ => None end) t.
Definition dispatched (t : list event) : list (list Z) :=
  omap (fun e => match e with Dispatch c => Some c | _ => None end) t.

(** ** SLIP *)

(** [void reset_frame()]. *)
Definition reset_frame : M () :=
  set_frame_pos 0;;
  set_state MCP_IDLE.

(** Body of the [for] loop of [send_slip_frame], [n] iterations left. *)
Fixpoint send_slip_loop (data : list Z) (n : nat) (i : Z) : M () :=
  match n with
  | O => mret ()
  | S n' =>
      (if rd data i =? SLIP_END then
         serial_write SLIP_ESC;;
         serial_write SLIP_ESC_END
       else if rd data i =? SLIP_ESC then
         serial_write SLIP_ESC;;
         serial_write SLIP_ESC_ESC
       else
         serial_write (rd data i));;
      send_slip_loop data n' (i + 1)
  end.

(** [void send_slip_frame(const uint8_t* data, int len)]. *)
Definition send_slip_frame (data : list Z) (len : Z) : M () :=
  serial_write SLIP_ESC;;
  serial_write SLIP_CLEAR;;
  serial_write SLIP_END;;
  send_slip_loop data (Z.to_nat len) 0;;
  serial_write SLIP_END.

(** The encoder as the protocol describes it: reset prefix, frame start, the
    escaped payload, frame end. *)
Definition slip_escape (b : Z) : list Z :=
  if b =? SLIP_END then [SLIP_ESC; SLIP_ESC_END]
  else if b =? SLIP_ESC then [SLIP_ESC; SLIP_ESC_ESC]
  else [b].

Definition slip_encode (payload : list Z) : list Z :=
  [SLIP_ESC; SLIP_CLEAR] ++ [SLIP_END] ++ concat (map slip_escape payload) ++ [SLIP_END].

(** ** The generated bindings

    [MCPBindings::dispatch(cmd, cmd_len, resp, max_resp, &resp_len)] is
    generated per sketch ([build/mcp_bindings.hpp]); the handler is written
    against its signature only.  A call yields the [int] result, the contents
    of the response array after the call, the length stored through
    [resp_len], and the bytes the called tool itself printed on [Serial].
    The command array is an input of the call: the members of the decoder
    ([frame_buffer], [frame_pos], [state]) are the same after it. *)

Record dispatch_result : Type := mkDispatchResult {
  dr_result : Z;
  dr_response : list Z;
  dr_response_len : Z;
  dr_serial : list Z
}.

Class MCPBindings : Type :=
  dispatch : list Z -> Z -> list Z -> Z -> dispatch_result.

(** ** Frame processing and the decoder *)

Section Handler.
Context `{MCPBindings}.

(** [void MCPHandler::process_frame()]. *)
Definition process_frame : M () :=
  pos ← get_frame_pos;
  fb ← get_frame_buffer;
  log [ProcessFrame (take (Z.to_nat pos) fb)];;
  if pos <? 2 then mret () else
  let data_len := pos - 1 in
  let received_crc := rd fb (pos - 1) in
  let calculated_crc := crc8 fb data_len in
  if negb (received_crc =? calculated_crc) then
    let error_response := [0xFF; 0x01] in
    let error_crc := crc8 error_response 1 in
    let error_response := wr error_response 1 error_crc in
    send_slip_frame error_response 2
  else
    rb ← get_response_buffer;
    let r := dispatch fb data_len rb (MAX_FRAME_SIZE - 1) in
    log (Dispatch (take (Z.to_nat data_len) fb) :: map SerialWrite (dr_serial r));;
    set_response_buffer (dr_response r);;
    let response_len := dr_response_len r in
    if dr_result r =? 0 then
      rb ← get_response_buffer;
      let response_crc := crc8 rb response_len in
      set_response_buffer (wr rb response_len response_crc);;
      rb ← get_response_buffer;
      send_slip_frame rb (response_len + 1)
    else
      let error_response := [0xFF; 0x02] in
      let error_crc := crc8 error_response 1 in
      let error_response := wr error_response 1 error_crc in
      send_slip_frame error_response 2.

(** [frame_buffer[frame_pos++] = b]. *)
Definition frame_push (b : Z) : M () :=
  pos ← get_frame_pos;
  set_frame_pos (pos + 1);;
  frame_store pos b.

(** Body of the [while] loop of [process_serial], for the byte just read. *)
Definition process_byte (byte : Z) : M () :=
  serial_write (chr "R");;
  st ← get_state;
  match st with
  | MCP_IDLE =>
      if byte =? SLIP_END then
        serial_write (chr "S");;
        set_state MCP_RECEIVING;;
        set_frame_pos 0
      else mret ()
  | MCP_RECEIVING =>
      if byte =? SLIP_END then
        serial_write (chr "E");;
        pos ← get_frame_pos;
        (if 1 <? pos then
           serial_write (chr "P");;
           process_frame
         else mret ());;
        reset_frame
      else if byte =? SLIP_ESC then
        serial_write (chr "\");;
        set_state MCP_ESCAPED
      else
        pos ← get_frame_pos;
        if pos <? MAX_FRAME_SIZE then
          serial_write (chr "D");;
          frame_push byte
        else
          serial_write (chr "X");;
          reset_frame
  | MCP_ESCAPED =>
      (if byte =? SLIP_ESC_END then
         serial_write (chr "e");;
         pos ← get_frame_pos;
         if pos <? MAX_FRAME_SIZE then frame_push SLIP_END
         else
           serial_write (chr "X");;
           reset_frame
       else if byte =? SLIP_ESC_ESC then
         serial_write (chr "s");;
         pos ← get_frame_pos;
         if pos <? MAX_FRAME_SIZE then frame_push SLIP_ESC
         else
           serial_write (chr "X");;
           reset_frame
       else
         serial_write (chr "!");;
         reset_frame);;
      set_state MCP_RECEIVING
  end.

(** [void process_serial()]: the loop runs once for each byte that
    [Serial.read()] delivers, here the list [input]. *)
Fixpoint process_serial (input : list Z) : M () :=
  match input with
  | [] => mret ()
  | byte :: rest =>
      process_byte byte;;
      process_serial rest
  end.

End Handler.

(** The handler as the constructor leaves it, [frame_pos(0), state(MCP_IDLE)],
    for the global [mcp_handler], whose arrays start zeroed. *)
Definition mcp_handler : MCPHandler :=
  mkMCPHandler (replicate 256 0) 0 MCP_IDLE (replicate 256 0).

(** Bindings with the one tool every sketch has, [deviceId] on tag 0, which
    returns the string [blinker] and its terminator; any other tag is a
    dispatch error. *)
Definition deviceId_response : list Z :=
  [0x62; 0x6C; 0x69; 0x6E; 0x6B; 0x65; 0x72; 0x00].

Definition sample_dispatch (cmd : list Z) (cmd_len : Z) (resp : list Z) (max_resp : Z)
  : dispatch_result :=
  if (0 <? cmd_len) && (rd cmd 0 =? 0) then
    mkDispatchResult 0 (deviceId_response ++ drop 8 resp) 8 []
  else
    mkDispatchResult 1 resp 0 [].

(** Handler states with the arrays at their declared size and [frame_pos]
    inside the frame array. *)
Definition handler_ok (h : MCPHandler) : Prop :=
  length (frame_buffer h) = 256%nat /\ 0 <= frame_pos h <= MAX_FRAME_SIZE.

(** A handler that has received the bytes [buf] of a frame so far. *)
Definition receiving (buf : list Z) (h : MCPHandler) : Prop :=
  state h = MCP_RECEIVING /\
  frame_pos h = Z.of_nat (length buf) /\
  take (length buf) (frame_buffer h) = buf /\
  length (frame_buffer h) = 256%nat.

(** A store inside [frame_buffer]; a frame that fits it. *)
Definition store_ok (i : Z) : Prop := 0 <= i < MAX_FRAME_SIZE.
Definition frame_ok (f : list Z) : Prop := (length f <= 256)%nat.

(** The handler as [process_serial] holds it when the END that closes the
    frame [frame] arrives. *)
Definition frame_handler (frame : list Z) : MCPHandler :=
  mkMCPHandler (frame ++ replicate (256 - length frame) 0)
    (Z.of_nat (length frame)) MCP_RECEIVING (replicate 256 0).

(** A value a [uint8_t] holds. *)
Definition is_byte (b : Z) : Prop := 0 <= b < 256.

(** A byte the encoder sends as it is. *)
Definition plain (b : Z) : Prop := b <> SLIP_END /\ b <> SLIP_ESC.

(** What the decoder does on its own, outside [process_frame]: debug
    characters, none of them the END marker, and stores into
    [frame_buffer]. *)
Definition own_event (e : event) : Prop :=
  match e with
  | SerialWrite b => b <> SLIP_END
  | FrameStore _ _ => True
  | ProcessFrame _ => False
  | Dispatch _ => False
  end.

(** The round of [crc8] read backwards: the low bit of the result tells
    whether the polynomial was applied. *)
Definition crc8_unbit (y : Z) : Z :=
  if Z.odd y then Z.lor (Z.shiftr (Z.lxor y 0x07) 1) 0x80 else Z.shiftr y 1.

(** A well-formed frame: bytes followed by their CRC. *)
Definition frame_valid (f : list Z) : Prop :=
  exists data : list Z, f = data ++ [crc8 data (Z.of_nat (length data))].

(** Two frames that differ in exactly one byte. *)
Definition one_byte_off (f f' : list Z) : Prop :=
  exists (pre post : list Z) (b b' : Z),
    f = pre ++ b :: post /\ f' = pre ++ b' :: post /\
    is_byte b /\ is_byte b' /\ b <> b'.

(** ** The blinker sketch

    The tools of the LED sketches: [setLedState] and the functions built on
    it.  The two MCP sketches are the same text with different pin numbers,
    so the pins are a parameter with one instance per sketch.  The board is
    the level last written to each pin, the global [currentLed], and the
    calls made on the hardware, in order. *)

(** [HIGH], [LOW] and [OUTPUT] of the Arduino core. *)
Definition HIGH : Z := 1.
Definition LOW : Z := 0.
Definition OUTPUT : Z := 1.

Class LedPins : Type := mkLedPins {
  greenPin : Z;
  yellowPin : Z;
  redPin : Z
}.

(** [greenPin = 5, yellowPin = 4, redPin = 3]. *)
Definition pins_5_4_3 : LedPins := mkLedPins 5 4 3.
(** [greenPin = 14, yellowPin = 15, redPin = 16]. *)
Definition pins_14_15_16 : LedPins := mkLedPins 14 15 16.

Inductive io : Type :=
| DigitalWrite (pin level : Z)
| Delay (ms : Z)
| PinMode (pin mode : Z)
| SerialBegin (baud : Z)
| SerialPut (b : Z).

Record Board : Type := mkBoard {
  levels : gmap Z Z;
  currentLed : Z;
  ios : list io
}.

(** The board at power-up: nothing written yet, [int currentLed = -1]. *)
Definition board0 : Board := mkBoard ∅ (-1) [].

Definition digitalWrite (pin level : Z) (b : Board) : Board :=
  mkBoard (<[pin := level]> (levels b)) (currentLed b) (ios b ++ [DigitalWrite pin level]).

Definition hardware (e : io) (b : Board) : Board :=
  mkBoard (levels b) (currentLed b) (ios b ++ [e]).

Definition delay (ms : Z) : Board -> Board := hardware (Delay ms).

Section Sketch.
Context `{LedPins}.

(** [void setLedState(int pin, int level)]. *)
Definition setLedState (pin level : Z) (b : Board) : Board :=
  let b := digitalWrite greenPin (if pin =? greenPin then level else LOW) b in
  let b := digitalWrite yellowPin (if pin =? yellowPin then level else LOW) b in
  let b := digitalWrite redPin (if pin =? redPin then level else LOW) b in
  mkBoard (levels b) (if level =? HIGH then pin else -1) (ios b).

Definition switchToRed : Board -> Board := setLedState redPin HIGH.
Definition switchToYellow : Board -> Board := setLedState yellowPin HIGH.
Definition switchToGreen : Board -> Board := setLedState greenPin HIGH.

(** Body of the [for] loop of [blinkNTimes]. *)
Definition blink_once (originalLed : Z) (b : Board) : Board :=
  let b := setLedState (-1) LOW b in
  let b := delay 200 b in
  let b := if negb (originalLed =? -1)
           then setLedState originalLed HIGH b
           else setLedState greenPin HIGH b in
  delay 200 b.

(** The loop, [n] iterations left. *)
Fixpoint blink_loop (originalLed : Z) (n : nat) (b : Board) : Board :=
  match n with
  | O => b
  | S n' => blink_loop originalLed n' (blink_once originalLed b)
  end.

(** The LED a blink ends on. *)
Definition blink_target (originalLed : Z) : Z :=
  if negb (originalLed =? -1) then originalLed else greenPin.

(** [void blinkNTimes(int n)]. *)
Definition blinkNTimes (n : Z) (b : Board) : Board :=
  let originalLed := currentLed b in
  blink_loop originalLed (Z.to_nat n) b.

(** [int getActiveLedPin()]. *)
Definition getActiveLedPin (b : Board) : Z := currentLed b.

(** [const char* getActiveLedColor()]. *)
Definition getActiveLedColor (b : Board) : string :=
  if currentLed b =? redPin then "red"
  else if currentLed b =? yellowPin then "yellow"
  else if currentLed b =? greenPin then "green"
  else "off".

(** [void setup()] of the MCP sketches. *)
Definition setup (b : Board) : Board :=
  let b := hardware (SerialBegin 115200) b in
  let b := hardware (PinMode greenPin OUTPUT) b in
  let b := hardware (PinMode yellowPin OUTPUT) b in
  let b := hardware (PinMode redPin OUTPUT) b in
  let b := setLedState (-1) LOW b in
  hardware (SerialPut (chr ">")) b.

(** The pins are three different pins, none of them the "no LED" value. *)
Definition pins_ok : Prop :=
  greenPin <> yellowPin /\ greenPin <> redPin /\ yellowPin <> redPin /\
  greenPin <> -1 /\ yellowPin <> -1 /\ redPin <> -1.

Definition led (p : Z) (b : Board) : option Z := levels b !! p.

(** Only the LED [p] is lit. *)
Definition only_lit (p : Z) (b : Board) : Prop :=
  led greenPin b = Some (if decide (p = greenPin) then HIGH else LOW) /\
  led yellowPin b = Some (if decide (p = yellowPin) then HIGH else LOW) /\
  led redPin b = Some (if decide (p = redPin) then HIGH else LOW).

(** [currentLed] tells which LED is lit: none when it is -1, else the LED
    on that pin. *)
Definition led_state_ok (b : Board) : Prop :=
  (currentLed b = -1 \/ currentLed b = greenPin \/ currentLed b = yellowPin \/
   currentLed b = redPin) /\
  only_lit (currentLed b) b.

End Sketch.

(** Milliseconds spent in [delay]. *)
Fixpoint busy_ms (l : list io) : Z :=
  match l with
  | [] => 0
  | Delay ms :: l' => ms + busy_ms l'
  | _ :: l' => busy_ms l'
  end.

(** ** Sample runs *)

Example crc8_check : crc8 [0x31; 0x32; 0x33; 0x34; 0x35; 0x36; 0x37; 0x38; 0x39] 9 = 0xF4.
Proof. reflexivity. Qed.

Example send_check :
  wire (trace (send_slip_frame [1; 0xC0; 0xDB] 3) mcp_handler) =
  [0xDB; 0xDE; 0xC0; 1; 0xDB; 0xDC; 0xDB; 0xDD; 0xC0].
Proof. reflexivity. Qed.

(** ** CRC-8: the loop against the reference *)

Section CrcFacts.

Lemma uint8_land (x : Z) : uint8 x = Z.land x 0xFF.
Proof.
  unfold uint8. change 0xFF with (Z.ones 8).
  rewrite Z.land_ones by lia. reflexivity.
Qed.

Lemma uint8_range (x : Z) : 0 <= uint8 x < 256.
Proof. unfold uint8. apply Z.mod_pos_bound. lia. Qed.

Lemma crc8_bit_ref (crc : Z) : crc8_bit crc = crc8_ref_round crc.
Proof.
  unfold crc8_bit, crc8_ref_round.
  destruct (Z.land crc 0x80 =? 0); simpl; apply uint8_land.
Qed.

Lemma land_lxor_l (a b c : Z) :
  Z.land (Z.lxor a b) c = Z.lxor (Z.land a c) (Z.land b c).
Proof.
  apply Z.bits_inj'. intros n _.
  rewrite Z.lxor_spec, !Z.land_spec, Z.lxor_spec.
  destruct (Z.testbit a n), (Z.testbit b n), (Z.testbit c n); reflexivity.
Qed.

(** A round looks at the low eight bits only. *)
Lemma crc8_ref_round_uint8 (x : Z) : crc8_ref_round (uint8 x) = crc8_ref_round x.
Proof.
  unfold crc8_ref_round.
  assert (Htest : Z.land (uint8 x) 0x80 = Z.land x 0x80).
  { rewrite uint8_land, <- Z.land_assoc. reflexivity. }
  assert (Hsh : Z.land (Z.shiftl (uint8 x) 1) 0xFF = Z.land (Z.shiftl x 1) 0xFF).
  { rewrite <- !uint8_land. unfold uint8.
    rewrite !Z.shiftl_mul_pow2 by lia.
    change (2 ^ 1) with 2.
    rewrite Z.mul_mod_idemp_l by lia. reflexivity. }
  rewrite Htest.
  destruct (Z.land x 0x80 =? 0); [exact Hsh|].
  rewrite !land_lxor_l, Hsh. reflexivity.
Qed.

Lemma crc8_bit_range (crc : Z) : 0 <= crc8_bit crc < 256.
Proof. unfold crc8_bit. destruct (negb _); apply uint8_range. Qed.

Lemma crc8_byte_range (crc b : Z) : 0 <= crc8_byte crc b < 256.
Proof. unfold crc8_byte. simpl. apply crc8_bit_range. Qed.

Lemma crc8_byte_ref (crc b : Z) :
  crc8_byte crc b = Nat.iter 8 crc8_ref_round (Z.lxor crc b).
Proof.
  unfold crc8_byte.
  change 8%nat with (7 + 1)%nat.
  rewrite !Nat.iter_add.
  simpl Nat.iter at 2 4.
  rewrite crc8_bit_ref, crc8_ref_round_uint8.
  generalize (crc8_ref_round (Z.lxor crc b)). intros y.
  simpl. rewrite !crc8_bit_ref. reflexivity.
Qed.

Lemma span_take_drop (data : list Z) (n k : nat) :
  (k + n <= length data)%nat ->
  span data (Z.of_nat k) n = take n (drop k data).
Proof.
  revert k. induction n as [|n IH]; intros k Hlen; [reflexivity|].
  simpl span.
  destruct (drop k data) as [|b rest] eqn:Hdrop.
  { apply (f_equal length) in Hdrop. rewrite length_drop in Hdrop. simpl in Hdrop. lia. }
  assert (Hb : rd data (Z.of_nat k) = b).
  { unfold rd. rewrite Nat2Z.id.
    apply list_lookup_total_correct.
    rewrite <- (Nat.add_0_r k), <- lookup_drop, Hdrop. reflexivity. }
  assert (Hrest : drop (S k) data = rest).
  { change (S k) with (1 + k)%nat. rewrite Nat.add_comm, <- drop_drop, Hdrop. reflexivity. }
  rewrite Hb. replace (Z.of_nat k + 1) with (Z.of_nat (S k)) by lia.
  rewrite IH by lia. rewrite Hrest. reflexivity.
Qed.

Lemma span_prefix (data : list Z) (len : Z) :
  0 <= len <= Z.of_nat (length data) ->
  span data 0 (Z.to_nat len) = take (Z.to_nat len) data.
Proof.
  intros Hlen. change 0 with (Z.of_nat 0).
  rewrite span_take_drop by lia.
  rewrite drop_0. reflexivity.
Qed.

Lemma span_all (data : list Z) : span data 0 (length data) = data.
Proof.
  change 0 with (Z.of_nat 0).
  rewrite span_take_drop by lia.
  rewrite drop_0, firstn_all. reflexivity.
Qed.

(** The index loop folds [crc8_byte] over the bytes it reads. *)
Lemma crc8_loop_fold (data : list Z) (n : nat) (i crc : Z) :
  crc8_loop data n i crc = fold_left crc8_byte (span data i n) crc.
Proof.
  revert i crc. induction n as [|n IH]; intros i crc; [reflexivity|].
  simpl. apply IH.
Qed.

Lemma crc8_fold (data : list Z) :
  crc8 data (Z.of_nat (length data)) = fold_left crc8_byte data 0.
Proof.
  unfold crc8. rewrite Nat2Z.id, crc8_loop_fold, span_all. reflexivity.
Qed.

(** [crc8] reads only the first [len] bytes of the array. *)
Lemma crc8_take (data : list Z) (len : Z) :
  0 <= len <= Z.of_nat (length data) ->
  crc8 data len = crc8 (take (Z.to_nat len) data) len.
Proof.
  intros Hlen. unfold crc8. rewrite !crc8_loop_fold.
  rewrite !span_prefix by (rewrite ?length_take; lia).
  rewrite take_take, Nat.min_id. reflexivity.
Qed.

Lemma crc8_loop_range (data : list Z) (n : nat) (i crc : Z) :
  0 <= crc < 256 -> 0 <= crc8_loop data n i crc < 256.
Proof.
  revert i crc. induction n as [|n IH]; intros i crc Hc; simpl; [exact Hc|].
  apply IH, crc8_byte_range.
Qed.

Lemma crc8_range (data : list Z) (len : Z) : 0 <= crc8 data len < 256.
Proof. unfold crc8. apply crc8_loop_range. lia. Qed.

End CrcFacts.

(** C5: over every byte span, [crc8] computes the CRC-8 of the reference
    pseudocode (polynomial 0x07, initial value 0x00, no final XOR, most
    significant bit first): start from 0, XOR each byte in, then eight rounds
    of shift-and-conditionally-XOR truncated to eight bits. *)
Theorem crc8_matches_reference (data : list Z) :
  crc8 data (Z.of_nat (length data)) = crc8_ref data.
Proof.
  rewrite crc8_fold. unfold crc8_ref.
  generalize 0 at 1 2 as crc.
  induction data as [|b data IH]; intros crc; simpl fold_left; [reflexivity|].
  rewrite crc8_byte_ref. apply IH.
Qed.

(** C6: the CRC of the empty span is 0x00, and a span followed by its own
    CRC has CRC 0x00. *)
Theorem crc8_self_check :
  crc8 [] 0 = 0x00 /\
  forall a : list Z,
    crc8 (a ++ [crc8 a (Z.of_nat (length a))]) (Z.of_nat (length a) + 1) = 0x00.
Proof.
  split; [reflexivity|]. intros a.
  replace (Z.of_nat (length a) + 1)
    with (Z.of_nat (length (a ++ [crc8 a (Z.of_nat (length a))])))
    by (rewrite length_app; simpl; lia).
  rewrite crc8_fold, fold_left_app. simpl fold_left.
  rewrite crc8_fold. unfold crc8_byte.
  rewrite Z.lxor_nilpotent. reflexivity.
Qed.

(** ** Running member functions *)

Ltac msimpl :=
  cbv [mbind M_bind mret M_ret serial_write log get_state get_frame_pos
       get_frame_buffer get_response_buffer set_state set_frame_pos
       set_response_buffer frame_store reset_frame state frame_pos
       frame_buffer response_buffer exec trace fst snd];
  repeat match goal with
  | |- context [Z.eqb ?a ?b] =>
      first [ progress change (Z.eqb a b) with true
            | progress change (Z.eqb a b) with false ]
  end;
  cbn [app].

Ltac eqb_false H := rewrite (proj2 (Z.eqb_neq _ _) H).

Section Encoder.

Lemma send_slip_loop_run (data : list Z) (n : nat) (i : Z) (h : MCPHandler) :
  send_slip_loop data n i h =
  ((), h, map SerialWrite (concat (map slip_escape (span data i n)))).
Proof.
  revert i. induction n as [|n IH]; intros i; [reflexivity|].
  cbn [send_slip_loop span map concat].
  rewrite map_app. unfold slip_escape at 1.
  unfold mbind at 1, M_bind at 1.
  destruct (rd data i =? SLIP_END); [|destruct (rd data i =? SLIP_ESC)];
    msimpl; rewrite IH; reflexivity.
Qed.

Lemma send_slip_frame_run (data : list Z) (len : Z) (h : MCPHandler) :
  send_slip_frame data len h =
  ((), h, map SerialWrite (slip_encode (span data 0 (Z.to_nat len)))).
Proof.
  unfold send_slip_frame, slip_encode.
  msimpl. rewrite send_slip_loop_run.
  cbn [map]. rewrite map_app. reflexivity.
Qed.

Lemma wire_serial (bs : list Z) : wire (map SerialWrite bs) = bs.
Proof. induction bs as [|b bs IH]; [reflexivity|]. cbn. f_equal. exact IH. Qed.

Lemma emitted_serial (bs : list Z) : emitted (map SerialWrite bs) = [].
Proof. induction bs as [|b bs IH]; [reflexivity|]. exact IH. Qed.

Lemma stores_serial (bs : list Z) : stores (map SerialWrite bs) = [].
Proof. induction bs as [|b bs IH]; [reflexivity|]. exact IH. Qed.

Lemma slip_escape_no_end (b : Z) : Forall (fun x => x <> SLIP_END) (slip_escape b).
Proof.
  unfold slip_escape.
  destruct (Z.eqb_spec b SLIP_END) as [|Hne].
  { repeat constructor; discriminate. }
  destruct (b =? SLIP_ESC); repeat constructor; try discriminate. exact Hne.
Qed.

End Encoder.

(** C7: for every payload the encoder writes ESC CLEAR, then END, then each
    payload byte escaped (END as ESC ESC_END, ESC as ESC ESC_ESC, any other
    byte as it is), then END, and nothing else; no byte strictly between the
    two END markers is 0xC0. *)
Theorem send_slip_frame_encoding (data : list Z) (h : MCPHandler) :
  send_slip_frame data (Z.of_nat (length data)) h =
    ((), h, map SerialWrite
              ([SLIP_ESC; SLIP_CLEAR] ++ [SLIP_END] ++
               concat (map slip_escape data) ++ [SLIP_END])) /\
  (forall b, slip_escape b =
     if b =? 0xC0 then [0xDB; 0xDC] else if b =? 0xDB then [0xDB; 0xDD] else [b]) /\
  Forall (fun x => x <> 0xC0) (concat (map slip_escape data)).
Proof.
  split; [|split].
  - rewrite send_slip_frame_run, Nat2Z.id, span_all. reflexivity.
  - reflexivity.
  - apply Forall_concat, Forall_map, Forall_forall. intros b _.
    apply slip_escape_no_end.
Qed.

(** ** Frame processing, case by case *)

Section ProcessFrame.
Context `{MCPBindings}.

Lemma emitted_app (t1 t2 : list event) : emitted (t1 ++ t2) = emitted t1 ++ emitted t2.
Proof. apply omap_app. Qed.

Lemma stores_app (t1 t2 : list event) : stores (t1 ++ t2) = stores t1 ++ stores t2.
Proof. apply omap_app. Qed.

(** The error frame both error paths build: [error_response[1]] is
    overwritten with the CRC of the first byte alone. *)
Lemma error_frame_bytes (code : Z) :
  span (wr [0xFF; code] 1 (crc8 [0xFF; code] 1)) 0 (Z.to_nat 2) = [0xFF; 0xF3].
Proof. reflexivity. Qed.

Lemma process_frame_short (h : MCPHandler) :
  frame_pos h < 2 ->
  process_frame h =
  ((), h, [ProcessFrame (take (Z.to_nat (frame_pos h)) (frame_buffer h))]).
Proof.
  destruct h as [fb pos st rb]. cbn [frame_pos frame_buffer]. intros Hpos.
  unfold process_frame. msimpl.
  rewrite (proj2 (Z.ltb_lt _ _) Hpos). reflexivity.
Qed.

Lemma process_frame_crc_error (fb : list Z) (pos : Z) (st : MCPState) (rb : list Z) :
  2 <= pos ->
  rd fb (pos - 1) <> crc8 fb (pos - 1) ->
  process_frame (mkMCPHandler fb pos st rb) =
  ((), mkMCPHandler fb pos st rb,
   ProcessFrame (take (Z.to_nat pos) fb) :: map SerialWrite (slip_encode [0xFF; 0xF3])).
Proof.
  intros Hpos Hcrc. unfold process_frame. msimpl.
  rewrite (proj2 (Z.ltb_ge _ _) Hpos).
  rewrite (proj2 (Z.eqb_neq _ _) Hcrc). cbn [negb].
  rewrite send_slip_frame_run, error_frame_bytes. reflexivity.
Qed.

Lemma process_frame_dispatch_error (fb : list Z) (pos : Z) (st : MCPState) (rb : list Z) :
  let r := dispatch fb (pos - 1) rb (MAX_FRAME_SIZE - 1) in
  2 <= pos ->
  rd fb (pos - 1) = crc8 fb (pos - 1) ->
  dr_result r <> 0 ->
  process_frame (mkMCPHandler fb pos st rb) =
  ((), mkMCPHandler fb pos st (dr_response r),
   ProcessFrame (take (Z.to_nat pos) fb) ::
   Dispatch (take (Z.to_nat (pos - 1)) fb) ::
   map SerialWrite (dr_serial r ++ slip_encode [0xFF; 0xF3])).
Proof.
  intros r Hpos Hcrc Hres. unfold process_frame. msimpl.
  rewrite (proj2 (Z.ltb_ge _ _) Hpos).
  rewrite (proj2 (Z.eqb_eq _ _) Hcrc). cbn [negb].
  fold r. rewrite (proj2 (Z.eqb_neq _ _) Hres).
  rewrite send_slip_frame_run, error_frame_bytes, map_app. reflexivity.
Qed.

Lemma process_frame_success (fb : list Z) (pos : Z) (st : MCPState) (rb : list Z) :
  let r := dispatch fb (pos - 1) rb (MAX_FRAME_SIZE - 1) in
  let n := dr_response_len r in
  let rb' := wr (dr_response r) n (crc8 (dr_response r) n) in
  2 <= pos ->
  rd fb (pos - 1) = crc8 fb (pos - 1) ->
  dr_result r = 0 ->
  process_frame (mkMCPHandler fb pos st rb) =
  ((), mkMCPHandler fb pos st rb',
   ProcessFrame (take (Z.to_nat pos) fb) ::
   Dispatch (take (Z.to_nat (pos - 1)) fb) ::
   map SerialWrite (dr_serial r ++ slip_encode (span rb' 0 (Z.to_nat (n + 1))))).
Proof.
  intros r n rb' Hpos Hcrc Hres. unfold process_frame. msimpl.
  rewrite (proj2 (Z.ltb_ge _ _) Hpos).
  rewrite (proj2 (Z.eqb_eq _ _) Hcrc). cbn [negb].
  fold r. rewrite (proj2 (Z.eqb_eq _ _) Hres).
  rewrite send_slip_frame_run, map_app. reflexivity.
Qed.

(** Whatever the frame and the bindings, [process_frame] leaves the decoder
    members alone, marks one frame and stores nothing in [frame_buffer]. *)
Lemma process_frame_keeps (fb : list Z) (pos : Z) (st : MCPState) (rb : list Z) :
  exists rb' t,
    process_frame (mkMCPHandler fb pos st rb) =
    ((), mkMCPHandler fb pos st rb', ProcessFrame (take (Z.to_nat pos) fb) :: t) /\
    emitted t = [] /\ stores t = [].
Proof.
  destruct (Z.lt_ge_cases pos 2) as [Hlt|Hge].
  { exists rb, []. rewrite process_frame_short by exact Hlt. auto. }
  destruct (Z.eq_dec (rd fb (pos - 1)) (crc8 fb (pos - 1))) as [Hcrc|Hcrc].
  2:{ eexists _, _. rewrite process_frame_crc_error by assumption.
      split; [reflexivity|]. rewrite emitted_serial, stores_serial. auto. }
  destruct (Z.eq_dec (dr_result (dispatch fb (pos - 1) rb (MAX_FRAME_SIZE - 1))) 0)
    as [Hres|Hres].
  - eexists _, _. rewrite process_frame_success by assumption.
    split; [reflexivity|].
    split; [apply emitted_serial|apply stores_serial].
  - eexists _, _. rewrite process_frame_dispatch_error by assumption.
    split; [reflexivity|].
    split; [apply emitted_serial|apply stores_serial].
Qed.

End ProcessFrame.

(** ** The decoder, transition by transition *)

Section Decoder.
Context `{MCPBindings}.

Local Abbreviation W c := (SerialWrite (chr c)).

Lemma idle_end (fb : list Z) (pos : Z) (rb : list Z) :
  process_byte SLIP_END (mkMCPHandler fb pos MCP_IDLE rb) =
  ((), mkMCPHandler fb 0 MCP_RECEIVING rb, [W "R"; W "S"]).
Proof. reflexivity. Qed.

Lemma idle_other (b : Z) (fb : list Z) (pos : Z) (rb : list Z) :
  b <> SLIP_END ->
  process_byte b (mkMCPHandler fb pos MCP_IDLE rb) =
  ((), mkMCPHandler fb pos MCP_IDLE rb, [W "R"]).
Proof.
  intros Hb. unfold process_byte. msimpl. eqb_false Hb. reflexivity.
Qed.

Lemma receiving_end_short (fb : list Z) (pos : Z) (rb : list Z) :
  pos <= 1 ->
  process_byte SLIP_END (mkMCPHandler fb pos MCP_RECEIVING rb) =
  ((), mkMCPHandler fb 0 MCP_IDLE rb, [W "R"; W "E"]).
Proof.
  intros Hpos. unfold process_byte. msimpl.
  rewrite (proj2 (Z.ltb_ge _ _) Hpos). reflexivity.
Qed.

Lemma receiving_end_frame (fb : list Z) (pos : Z) (rb : list Z) :
  1 < pos ->
  exists rb' t,
    process_frame (mkMCPHandler fb pos MCP_RECEIVING rb) =
      ((), mkMCPHandler fb pos MCP_RECEIVING rb',
       ProcessFrame (take (Z.to_nat pos) fb) :: t) /\
    emitted t = [] /\ stores t = [] /\
    process_byte SLIP_END (mkMCPHandler fb pos MCP_RECEIVING rb) =
      ((), mkMCPHandler fb 0 MCP_IDLE rb',
       [W "R"; W "E"; W "P"] ++ ProcessFrame (take (Z.to_nat pos) fb) :: t).
Proof.
  intros Hpos.
  destruct (process_frame_keeps fb pos MCP_RECEIVING rb) as (rb' & t & Hpf & He & Hs).
  exists rb', t. repeat split; try assumption.
  unfold process_byte. msimpl.
  rewrite (proj2 (Z.ltb_lt _ _) Hpos). rewrite Hpf.
  cbn [app]. rewrite app_nil_r. reflexivity.
Qed.

Lemma receiving_esc (fb : list Z) (pos : Z) (rb : list Z) :
  process_byte SLIP_ESC (mkMCPHandler fb pos MCP_RECEIVING rb) =
  ((), mkMCPHandler fb pos MCP_ESCAPED rb, [W "R"; W "\"]).
Proof. reflexivity. Qed.

Lemma receiving_data (b : Z) (fb : list Z) (pos : Z) (rb : list Z) :
  b <> SLIP_END -> b <> SLIP_ESC -> pos < MAX_FRAME_SIZE ->
  process_byte b (mkMCPHandler fb pos MCP_RECEIVING rb) =
  ((), mkMCPHandler (wr fb pos b) (pos + 1) MCP_RECEIVING rb,
   [W "R"; W "D"; FrameStore pos b]).
Proof.
  intros Hend Hesc Hpos. unfold process_byte, frame_push. msimpl.
  eqb_false Hend. eqb_false Hesc.
  rewrite (proj2 (Z.ltb_lt _ _) Hpos). reflexivity.
Qed.

Lemma receiving_overflow (b : Z) (fb : list Z) (pos : Z) (rb : list Z) :
  b <> SLIP_END -> b <> SLIP_ESC -> MAX_FRAME_SIZE <= pos ->
  process_byte b (mkMCPHandler fb pos MCP_RECEIVING rb) =
  ((), mkMCPHandler fb 0 MCP_IDLE rb, [W "R"; W "X"]).
Proof.
  intros Hend Hesc Hpos. unfold process_byte. msimpl.
  eqb_false Hend. eqb_false Hesc.
  rewrite (proj2 (Z.ltb_ge _ _) Hpos). reflexivity.
Qed.

Lemma escaped_esc_end (fb : list Z) (pos : Z) (rb : list Z) :
  pos < MAX_FRAME_SIZE ->
  process_byte SLIP_ESC_END (mkMCPHandler fb pos MCP_ESCAPED rb) =
  ((), mkMCPHandler (wr fb pos SLIP_END) (pos + 1) MCP_RECEIVING rb,
   [W "R"; W "e"; FrameStore pos SLIP_END]).
Proof.
  intros Hpos. unfold process_byte, frame_push. msimpl.
  rewrite (proj2 (Z.ltb_lt _ _) Hpos). reflexivity.
Qed.

Lemma escaped_esc_esc (fb : list Z) (pos : Z) (rb : list Z) :
  pos < MAX_FRAME_SIZE ->
  process_byte SLIP_ESC_ESC (mkMCPHandler fb pos MCP_ESCAPED rb) =
  ((), mkMCPHandler (wr fb pos SLIP_ESC) (pos + 1) MCP_RECEIVING rb,
   [W "R"; W "s"; FrameStore pos SLIP_ESC]).
Proof.
  intros Hpos. unfold process_byte, frame_push. msimpl.
  rewrite (proj2 (Z.ltb_lt _ _) Hpos). reflexivity.
Qed.

Lemma escaped_overflow (b : Z) (fb : list Z) (pos : Z) (rb : list Z) :
  b = SLIP_ESC_END \/ b = SLIP_ESC_ESC -> MAX_FRAME_SIZE <= pos ->
  process_byte b (mkMCPHandler fb pos MCP_ESCAPED rb) =
  ((), mkMCPHandler fb 0 MCP_RECEIVING rb,
   [W "R"; (if b =? SLIP_ESC_END then W "e" else W "s"); W "X"]).
Proof.
  intros [-> | ->] Hpos; unfold process_byte; msimpl;
    rewrite (proj2 (Z.ltb_ge _ _) Hpos); reflexivity.
Qed.

(** An escape byte that is neither ESC_END nor ESC_ESC: [reset_frame()] runs,
    and the assignment that closes the [MCP_ESCAPED] case then sets the
    state to [MCP_RECEIVING]. *)
Lemma escaped_other (b : Z) (fb : list Z) (pos : Z) (rb : list Z) :
  b <> SLIP_ESC_END -> b <> SLIP_ESC_ESC ->
  process_byte b (mkMCPHandler fb pos MCP_ESCAPED rb) =
  ((), mkMCPHandler fb 0 MCP_RECEIVING rb, [W "R"; W "!"]).
Proof.
  intros He Hs. unfold process_byte. msimpl.
  eqb_false He. eqb_false Hs. reflexivity.
Qed.

(** Runs compose. *)
Lemma process_serial_app (a b : list Z) (h : MCPHandler) :
  process_serial (a ++ b) h =
  ((), exec (process_serial b) (exec (process_serial a) h),
   trace (process_serial a) h ++ trace (process_serial b) (exec (process_serial a) h)).
Proof.
  revert h. induction a as [|x a IH]; intros h.
  - cbn [app process_serial]. msimpl. destruct (process_serial b h) as [[[] h'] t]. reflexivity.
  - cbn [app process_serial]. msimpl.
    destruct (process_byte x h) as [[[] h1] t1].
    rewrite IH. msimpl.
    destruct (process_serial a h1) as [[[] h2] t2].
    destruct (process_serial b h2) as [[[] h3] t3].
    rewrite app_assoc. reflexivity.
Qed.

Lemma process_serial_cons (x : Z) (a : list Z) (h : MCPHandler) :
  process_serial (x :: a) h =
  ((), exec (process_serial a) (exec (process_byte x) h),
   trace (process_byte x) h ++ trace (process_serial a) (exec (process_byte x) h)).
Proof.
  cbn [process_serial]. msimpl.
  destruct (process_byte x h) as [[[] h1] t1].
  destruct (process_serial a h1) as [[[] h2] t2]. reflexivity.
Qed.

Lemma process_serial_step (x : Z) (a : list Z) (h h1 : MCPHandler) (t1 : list event) :
  process_byte x h = ((), h1, t1) ->
  process_serial (x :: a) h =
  ((), exec (process_serial a) h1, t1 ++ trace (process_serial a) h1).
Proof.
  intros Hx. rewrite process_serial_cons.
  unfold exec, trace. rewrite Hx. reflexivity.
Qed.

Lemma process_serial_nil (h : MCPHandler) : process_serial [] h = ((), h, []).
Proof. reflexivity. Qed.

End Decoder.

(** Run the loop on the next byte with a transition lemma. *)
Ltac step tac :=
  erewrite process_serial_step by tac; unfold exec, trace; cbn [fst snd].

(** ** Bounds of the frame buffer *)

Section Bounds.
Context `{MCPBindings}.

Lemma length_wr (buf : list Z) (i b : Z) : length (wr buf i b) = length buf.
Proof. unfold wr. case_bool_decide; [apply length_insert|reflexivity]. Qed.

(** One iteration of the loop keeps [frame_pos] within the array, stores
    inside it, and hands over frames no longer than it. *)
Lemma process_byte_ok (b : Z) (h : MCPHandler) :
  handler_ok h ->
  handler_ok (exec (process_byte b) h) /\
  Forall store_ok (stores (trace (process_byte b) h)) /\
  Forall frame_ok (emitted (trace (process_byte b) h)).
Proof.
  destruct h as [fb pos st rb]. unfold handler_ok, MAX_FRAME_SIZE.
  cbn [frame_buffer frame_pos]. intros [Hlen Hpos].
  destruct st.
  - destruct (Z.eq_dec b SLIP_END) as [->|Hb].
    + unfold exec, trace. rewrite idle_end. cbn.
      repeat split; auto; lia.
    + unfold exec, trace. rewrite idle_other by exact Hb. cbn.
      repeat split; auto; lia.
  - destruct (Z.eq_dec b SLIP_END) as [->|Hend].
    { destruct (Z.le_gt_cases pos 1) as [Hle|Hgt].
      - unfold exec, trace. rewrite receiving_end_short by exact Hle. cbn.
        repeat split; auto; lia.
      - destruct (receiving_end_frame fb pos rb) as (rb' & t & _ & He & Hs & Hrun);
          [lia|].
        unfold exec, trace. rewrite Hrun. cbn [fst snd frame_buffer frame_pos app].
        repeat split; auto; try lia.
        + cbn. fold (stores t). rewrite Hs. constructor.
        + cbn. fold (emitted t). rewrite He.
          constructor; [|constructor]. unfold frame_ok. rewrite length_take. lia. }
    destruct (Z.eq_dec b SLIP_ESC) as [->|Hesc].
    { unfold exec, trace. rewrite receiving_esc. cbn. repeat split; auto; lia. }
    destruct (Z.lt_ge_cases pos MAX_FRAME_SIZE) as [Hlt|Hge].
    + unfold exec, trace. rewrite receiving_data by assumption.
      unfold MAX_FRAME_SIZE in Hlt. cbn.
      rewrite length_wr. repeat split; auto; try lia.
      repeat constructor; unfold MAX_FRAME_SIZE; lia.
    + unfold exec, trace. rewrite receiving_overflow by assumption. cbn.
      repeat split; auto; lia.
  - destruct (Z.lt_ge_cases pos MAX_FRAME_SIZE) as [Hlt|Hge].
    + destruct (Z.eq_dec b SLIP_ESC_END) as [->|He].
      { unfold exec, trace. rewrite escaped_esc_end by assumption.
        unfold MAX_FRAME_SIZE in Hlt. cbn.
        rewrite length_wr. repeat split; auto; try lia.
        repeat constructor; unfold MAX_FRAME_SIZE; lia. }
      destruct (Z.eq_dec b SLIP_ESC_ESC) as [->|Hs].
      { unfold exec, trace. rewrite escaped_esc_esc by assumption.
        unfold MAX_FRAME_SIZE in Hlt. cbn.
        rewrite length_wr. repeat split; auto; try lia.
        repeat constructor; unfold MAX_FRAME_SIZE; lia. }
      unfold exec, trace. rewrite escaped_other by assumption. cbn.
      repeat split; auto; lia.
    + destruct (Z.eq_dec b SLIP_ESC_END) as [He|He];
        [|destruct (Z.eq_dec b SLIP_ESC_ESC) as [Hs|Hs]].
      * unfold exec, trace. rewrite escaped_overflow by auto. subst b. cbn.
        repeat split; auto; lia.
      * unfold exec, trace. rewrite escaped_overflow by auto. subst b. cbn.
        repeat split; auto; lia.
      * unfold exec, trace. rewrite escaped_other by assumption. cbn.
        repeat split; auto; lia.
Qed.

Lemma process_serial_ok (input : list Z) (h : MCPHandler) :
  handler_ok h ->
  handler_ok (exec (process_serial input) h) /\
  Forall store_ok (stores (trace (process_serial input) h)) /\
  Forall frame_ok (emitted (trace (process_serial input) h)).
Proof.
  revert h. induction input as [|b input IH]; intros h Hok.
  - cbn. repeat split; try constructor; apply Hok.
  - destruct (process_byte_ok b h Hok) as (Hok1 & Hs1 & He1).
    destruct (IH _ Hok1) as (Hok2 & Hs2 & He2).
    unfold exec, trace in *. rewrite process_serial_cons.
    cbn [fst snd]. unfold exec, trace.
    rewrite stores_app, emitted_app.
    repeat split; try apply Forall_app; auto; apply Hok2.
Qed.

Lemma mcp_handler_ok : handler_ok mcp_handler.
Proof. unfold handler_ok, MAX_FRAME_SIZE. cbn. split; [reflexivity|lia]. Qed.

(** C9: whatever bytes arrive, starting from the constructed handler,
    [frame_pos] stays within 0..256, every store into [frame_buffer] is at an
    index below 256, and every frame handed to [process_frame] has at most
    256 bytes. *)
Theorem frame_buffer_bounds (input : list Z) :
  let h := exec (process_serial input) mcp_handler in
  let t := trace (process_serial input) mcp_handler in
  0 <= frame_pos h <= MAX_FRAME_SIZE /\
  Forall (fun i => 0 <= i < 256) (stores t) /\
  Forall (fun f => (length f <= 256)%nat) (emitted t).
Proof.
  destruct (process_serial_ok input mcp_handler mcp_handler_ok) as (Hok & Hs & He).
  cbv zeta. split; [apply Hok|]. split; assumption.
Qed.

End Bounds.

(** ** Decoding what the encoder wrote *)

Section RoundTrip.
Context `{MCPBindings}.

Lemma take_wr_snoc (fb : list Z) (pos : nat) (b : Z) :
  (pos < length fb)%nat ->
  take (S pos) (wr fb (Z.of_nat pos) b) = take pos fb ++ [b].
Proof.
  intros Hlt. unfold wr. rewrite bool_decide_true by lia. rewrite Nat2Z.id.
  rewrite (take_S_r _ _ b) by (apply list_lookup_insert_eq; exact Hlt).
  rewrite take_insert_ge by lia. reflexivity.
Qed.

(** One payload byte, escaped or not, lands in the buffer. *)
Lemma decode_escaped_byte (b : Z) (fb : list Z) (pos : Z) (rb : list Z) :
  pos < MAX_FRAME_SIZE ->
  exists t,
    process_serial (slip_escape b) (mkMCPHandler fb pos MCP_RECEIVING rb) =
    ((), mkMCPHandler (wr fb pos b) (pos + 1) MCP_RECEIVING rb, t) /\
    emitted t = [].
Proof.
  intros Hpos. unfold slip_escape.
  destruct (Z.eqb_spec b SLIP_END) as [->|Hend];
    [|destruct (Z.eqb_spec b SLIP_ESC) as [->|Hesc]].
  - eexists.
    step ltac:(apply receiving_esc).
    step ltac:(apply escaped_esc_end; exact Hpos).
    rewrite process_serial_nil. split; reflexivity.
  - eexists.
    step ltac:(apply receiving_esc).
    step ltac:(apply escaped_esc_esc; exact Hpos).
    rewrite process_serial_nil. split; reflexivity.
  - eexists.
    step ltac:(apply receiving_data; assumption).
    rewrite process_serial_nil. split; reflexivity.
Qed.

(** A whole escaped payload extends the buffer by the payload. *)
Lemma decode_payload (v : list Z) (fb : list Z) (pos : nat) (rb : list Z) :
  length fb = 256%nat ->
  (pos + length v <= 256)%nat ->
  exists fb' t,
    process_serial (concat (map slip_escape v))
      (mkMCPHandler fb (Z.of_nat pos) MCP_RECEIVING rb) =
    ((), mkMCPHandler fb' (Z.of_nat (pos + length v)) MCP_RECEIVING rb, t) /\
    emitted t = [] /\
    length fb' = 256%nat /\
    take (pos + length v) fb' = take pos fb ++ v.
Proof.
  revert fb pos. induction v as [|b v IH]; intros fb pos Hlen Hfit.
  - exists fb, []. cbn [map concat length]. rewrite Nat.add_0_r, app_nil_r.
    repeat split; auto.
  - cbn [length] in Hfit. cbn [map concat].
    destruct (decode_escaped_byte b fb (Z.of_nat pos) rb) as (t1 & Hrun1 & He1);
      [unfold MAX_FRAME_SIZE; lia|].
    destruct (IH (wr fb (Z.of_nat pos) b) (S pos)) as (fb' & t2 & Hrun2 & He2 & Hlen' & Htake);
      [rewrite length_wr; exact Hlen|lia|].
    exists fb', (t1 ++ t2).
    rewrite process_serial_app. unfold exec, trace. rewrite Hrun1. cbn [fst snd].
    replace (Z.of_nat pos + 1) with (Z.of_nat (S pos)) by lia.
    rewrite Hrun2. cbn [fst snd length].
    replace (pos + S (length v))%nat with (S pos + length v)%nat by lia.
    repeat split; auto.
    + rewrite emitted_app, He1, He2. reflexivity.
    + rewrite Htake, take_wr_snoc by lia. rewrite <- app_assoc. reflexivity.
Qed.

(** A frame between its two END markers, fed to an idle decoder: handed to
    [process_frame] when it has at least two bytes, dropped otherwise; the
    decoder is idle again afterwards. *)
Lemma decode_frame (v : list Z) (fb : list Z) (pos : Z) (rb : list Z) :
  length fb = 256%nat ->
  (length v <= 256)%nat ->
  let run := process_serial ([SLIP_END] ++ concat (map slip_escape v) ++ [SLIP_END]) in
  let h := mkMCPHandler fb pos MCP_IDLE rb in
  emitted (trace run h) = (if 1 <? Z.of_nat (length v) then [v] else []) /\
  state (exec run h) = MCP_IDLE /\
  frame_pos (exec run h) = 0 /\
  length (frame_buffer (exec run h)) = 256%nat.
Proof.
  intros Hlen Hv run h. subst run h.
  cbn [app]. unfold exec, trace.
  step ltac:(apply idle_end).
  rewrite process_serial_app. unfold exec, trace. cbn [fst snd].
  destruct (decode_payload v fb 0 rb Hlen) as (fb' & t & Hrun & He & Hlen' & Htake);
    [lia|].
  change (Z.of_nat 0) with 0 in Hrun. rewrite Hrun. cbn [fst snd].
  cbn [Nat.add] in *. rewrite take_0 in Htake. cbn [app] in Htake.
  destruct (Z.ltb_spec 1 (Z.of_nat (length v))) as [Hlong|Hshort].
  - destruct (receiving_end_frame fb' (Z.of_nat (length v)) rb Hlong)
      as (rb' & t' & _ & He' & _ & Hbyte).
    step ltac:(exact Hbyte). rewrite process_serial_nil.
    cbn [fst snd state frame_pos frame_buffer].
    rewrite Nat2Z.id, Htake in *.
    repeat split; auto.
    rewrite !emitted_app, He. cbn. fold (emitted t'). rewrite He'. reflexivity.
  - step ltac:(apply receiving_end_short; lia). rewrite process_serial_nil.
    cbn [fst snd state frame_pos frame_buffer].
    repeat split; auto.
    rewrite !emitted_app, He. reflexivity.
Qed.

(** The reset prefix in front of the frame is ignored by an idle decoder. *)
Lemma decode_encoded (v : list Z) (fb : list Z) (pos : Z) (rb : list Z) :
  length fb = 256%nat ->
  (length v <= 256)%nat ->
  let h := mkMCPHandler fb pos MCP_IDLE rb in
  emitted (trace (process_serial (slip_encode v)) h) =
    (if 1 <? Z.of_nat (length v) then [v] else []) /\
  state (exec (process_serial (slip_encode v)) h) = MCP_IDLE.
Proof.
  intros Hlen Hv h. subst h. unfold slip_encode.
  destruct (decode_frame v fb pos rb Hlen Hv) as (He & Hst & _).
  cbn [app] in *. unfold exec, trace in *.
  step ltac:(apply idle_other; discriminate).
  step ltac:(apply idle_other; discriminate).
  split; [exact He|exact Hst].
Qed.

End RoundTrip.

(** ** The round trip and the END marker *)

Section Frames.
Context `{MCPBindings}.

(** C3 (amended): for every byte vector of 2 to 254 bytes, feeding what
    [send_slip_frame] writes for it, byte by byte, to a decoder that is idle
    with an empty buffer hands exactly that vector to [process_frame], once,
    and nothing else. *)
Theorem slip_round_trip (v : list Z) (h0 h : MCPHandler) :
  (2 <= length v <= 254)%nat ->
  state h = MCP_IDLE ->
  frame_pos h = 0 ->
  length (frame_buffer h) = 256%nat ->
  emitted (trace (process_serial
                    (wire (trace (send_slip_frame v (Z.of_nat (length v))) h0))) h)
  = [v].
Proof.
  intros Hv Hst Hpos Hlen.
  unfold trace at 2. rewrite send_slip_frame_run. cbn [snd].
  rewrite wire_serial, Nat2Z.id, span_all.
  destruct h as [fb pos st rb]. cbn [state frame_pos frame_buffer] in *. subst st pos.
  destruct (decode_encoded v fb 0 rb Hlen) as [He _]; [lia|].
  rewrite He. rewrite (proj2 (Z.ltb_lt _ _)) by lia. reflexivity.
Qed.

(** C4 (amended): after a partially received frame (state RECEIVING, the
    bytes [buf] in the buffer), END END leaves the decoder in RECEIVING with
    an empty buffer, the second END having opened a new frame; the first END
    hands [buf] to [process_frame] when it holds at least two bytes and
    emits nothing when it holds fewer. *)
Theorem end_end_after_partial_frame (buf : list Z) (h : MCPHandler) :
  receiving buf h ->
  let run := process_serial [SLIP_END; SLIP_END] in
  state (exec run h) = MCP_RECEIVING /\
  frame_pos (exec run h) = 0 /\
  emitted (trace run h) = (if 1 <? Z.of_nat (length buf) then [buf] else []).
Proof.
  destruct h as [fb pos st rb]. unfold receiving. cbn [state frame_pos frame_buffer].
  intros (-> & -> & Htake & Hlen). unfold exec, trace.
  destruct (Z.ltb_spec 1 (Z.of_nat (length buf))) as [Hlong|Hshort].
  - destruct (receiving_end_frame fb (Z.of_nat (length buf)) rb Hlong)
      as (rb' & t' & _ & He' & _ & Hbyte).
    step ltac:(exact Hbyte).
    step ltac:(apply idle_end).
    rewrite process_serial_nil. cbn [fst snd state frame_pos].
    repeat split.
    rewrite !emitted_app. cbn. fold (emitted t'). rewrite He'.
    rewrite Nat2Z.id, Htake. reflexivity.
  - step ltac:(apply receiving_end_short; lia).
    step ltac:(apply idle_end).
    rewrite process_serial_nil. cbn [fst snd state frame_pos].
    repeat split.
Qed.

(** C10: a frame of fewer than two bytes gets no response.  [process_frame]
    on it returns at once: the handler is as before, nothing is written to
    the serial sink and nothing dispatched.  The decoder, at the END that
    closes such a frame, writes only its two debug characters, resets to
    IDLE with an empty buffer, and from there a following frame of 2 to 256
    bytes is handed to [process_frame] as usual. *)
Theorem short_frame_no_response (buf : list Z) (h : MCPHandler) :
  receiving buf h ->
  (length buf < 2)%nat ->
  (exec process_frame h = h /\
   wire (trace process_frame h) = [] /\
   dispatched (trace process_frame h) = []) /\
  let h' := exec (process_byte SLIP_END) h in
  trace (process_byte SLIP_END) h = [SerialWrite (chr "R"); SerialWrite (chr "E")] /\
  state h' = MCP_IDLE /\
  frame_pos h' = 0 /\
  forall v : list Z,
    (2 <= length v <= 256)%nat ->
    emitted (trace (process_serial
                      ([SLIP_END] ++ concat (map slip_escape v) ++ [SLIP_END])) h')
    = [v].
Proof.
  intros Hrecv Hshort. split.
  - destruct Hrecv as (_ & Hpos & _).
    unfold exec, trace. rewrite process_frame_short by lia.
    repeat split.
  - destruct h as [fb pos st rb]. unfold receiving in Hrecv.
    cbn [state frame_pos frame_buffer] in Hrecv.
    destruct Hrecv as (-> & -> & _ & Hlen).
    unfold exec, trace. rewrite receiving_end_short by lia.
    cbn [fst snd state frame_pos].
    repeat split. intros v Hv.
    destruct (decode_frame v fb 0 rb Hlen) as [He _]; [lia|].
    cbv zeta in He. unfold trace in He. rewrite He.
    rewrite (proj2 (Z.ltb_lt _ _)) by lia. reflexivity.
Qed.

End Frames.

(** ** The response to a dispatched command *)

Section Responses.
Context `{MCPBindings}.

(** C8: when the frame's CRC verifies and dispatch succeeds with a payload
    of [n <= 255] bytes, the frame passed to the encoder has [n + 1] bytes,
    at most 256: the payload dispatch produced, followed by the CRC of
    exactly those [n] bytes. *)
Theorem response_frame_crc (fb : list Z) (pos : Z) (st : MCPState) (rb : list Z) :
  let h := mkMCPHandler fb pos st rb in
  let r := dispatch fb (pos - 1) rb (MAX_FRAME_SIZE - 1) in
  let n := dr_response_len r in
  let frame := take (Z.to_nat (n + 1)) (response_buffer (exec process_frame h)) in
  let payload := take (Z.to_nat n) (dr_response r) in
  2 <= pos ->
  rd fb (pos - 1) = crc8 fb (pos - 1) ->
  dr_result r = 0 ->
  0 <= n <= 255 ->
  length (dr_response r) = 256%nat ->
  wire (trace process_frame h) = dr_serial r ++ slip_encode frame /\
  frame = payload ++ [crc8 payload n] /\
  Z.of_nat (length frame) = n + 1 /\
  (length frame <= 256)%nat.
Proof.
  intros h r n frame payload Hpos Hcrc Hres Hn Hlen.
  assert (Hframe : frame = payload ++ [crc8 payload n]).
  { subst frame payload h. unfold exec.
    rewrite process_frame_success by assumption. cbn [fst snd response_buffer].
    fold r. fold n.
    replace (Z.to_nat (n + 1)) with (S (Z.to_nat n)) by lia.
    rewrite <- (Z2Nat.id n) at 2 by lia.
    rewrite take_wr_snoc by lia.
    rewrite (crc8_take (dr_response r) n) by lia. reflexivity. }
  assert (Hflen : Z.of_nat (length frame) = n + 1).
  { rewrite Hframe, length_app. subst payload. rewrite length_take. cbn [length]. lia. }
  split; [|split; [exact Hframe|split; [exact Hflen|lia]]].
  subst frame h. unfold exec, trace.
  rewrite process_frame_success by assumption. cbn [fst snd response_buffer].
  fold r. fold n.
  rewrite span_prefix by (rewrite length_wr; lia).
  change (wire (map SerialWrite
    (dr_serial r ++
     slip_encode (take (Z.to_nat (n + 1)) (wr (dr_response r) n (crc8 (dr_response r) n))))) =
    dr_serial r ++
     slip_encode (take (Z.to_nat (n + 1)) (wr (dr_response r) n (crc8 (dr_response r) n)))).
  apply wire_serial.
Qed.

End Responses.

(** ** Runs on concrete frames *)

(** C1: the response to a rejected frame.  On a frame whose CRC byte is
    wrong ([01 00]) and on a frame with a good CRC and an unknown tag
    ([05 1B]) the handler writes the same SLIP frame, whose content is the
    two bytes [FF F3]: the marker and the CRC of the marker alone.  The
    three bytes [FF code crc8(FF code)] never reach the wire. *)
Theorem error_response_on_the_wire :
  crc8 [0x01] 1 <> 0x00 /\
  crc8 [0x05] 1 = 0x1B /\
  wire (trace (process_frame (H := sample_dispatch)) (frame_handler [0x01; 0x00]))
    = [0xDB; 0xDE; 0xC0; 0xFF; 0xF3; 0xC0] /\
  wire (trace (process_frame (H := sample_dispatch)) (frame_handler [0x05; 0x1B]))
    = [0xDB; 0xDE; 0xC0; 0xFF; 0xF3; 0xC0] /\
  crc8 [0xFF] 1 = 0xF3 /\
  slip_encode [0xFF; 0x01; crc8 [0xFF; 0x01] 2] = [0xDB; 0xDE; 0xC0; 0xFF; 0x01; 0xD0; 0xC0] /\
  slip_encode [0xFF; 0x02; crc8 [0xFF; 0x02] 2] = [0xDB; 0xDE; 0xC0; 0xFF; 0x02; 0xD9; 0xC0].
Proof. repeat split; try reflexivity. discriminate. Qed.

(** C2: an escape followed by a byte that is neither ESC_END nor ESC_ESC.
    From RECEIVING, whatever the buffer holds, ESC CLEAR empties the buffer
    and leaves the decoder in RECEIVING, not IDLE.  With one byte of a frame
    received, the END that opens the frame sent next is then taken as the end
    of an empty frame, and that frame is never handed to [process_frame],
    while an idle decoder hands it over. *)
Theorem escape_clear_leaves_receiving :
  (forall (B : MCPBindings) (fb : list Z) (pos : Z) (rb : list Z),
     exec (process_serial [SLIP_ESC; SLIP_CLEAR]) (mkMCPHandler fb pos MCP_RECEIVING rb)
     = mkMCPHandler fb 0 MCP_RECEIVING rb) /\
  let h := exec (process_serial (H := sample_dispatch) [SLIP_END; 0x01]) mcp_handler in
  let h' := exec (process_serial (H := sample_dispatch) [SLIP_ESC; SLIP_CLEAR]) h in
  state h = MCP_RECEIVING /\ frame_pos h = 1 /\
  state h' = MCP_RECEIVING /\ frame_pos h' = 0 /\
  emitted (trace (process_serial (H := sample_dispatch) (slip_encode [0x00; 0x00])) h) = [] /\
  emitted (trace (process_serial (H := sample_dispatch) (slip_encode [0x00; 0x00])) mcp_handler)
    = [[0x00; 0x00]].
Proof.
  split.
  - intros B fb pos rb. unfold exec.
    step ltac:(apply receiving_esc).
    step ltac:(apply escaped_other; discriminate).
    reflexivity.
  - repeat split; reflexivity.
Qed.

(** C3, as stated, fails for a one-byte vector: nothing is handed over. *)
Lemma slip_round_trip_one_byte :
  emitted (trace (process_serial (H := sample_dispatch)
                    (wire (trace (send_slip_frame [0x41] 1) mcp_handler))) mcp_handler)
  <> [[0x41]].
Proof. discriminate. Qed.

(** C4, as stated, fails with two bytes received: the first END hands them
    over, the second leaves the decoder in RECEIVING. *)
Lemma end_end_two_bytes :
  let h := exec (process_serial (H := sample_dispatch) [SLIP_END; 0x01; 0x07]) mcp_handler in
  receiving [0x01; 0x07] h /\
  ~ (state (exec (process_serial (H := sample_dispatch) [SLIP_END; SLIP_END]) h) = MCP_IDLE /\
     emitted (trace (process_serial (H := sample_dispatch) [SLIP_END; SLIP_END]) h) = []).
Proof.
  split.
  - repeat split; reflexivity.
  - intros [Hst _]. discriminate Hst.
Qed.

(** ** The theorems at concrete inputs *)

Lemma slip_round_trip_witness :
  emitted (trace (process_serial (H := sample_dispatch)
                    (wire (trace (send_slip_frame [0x00; 0x00] 2) mcp_handler))) mcp_handler)
  = [[0x00; 0x00]].
Proof.
  apply (slip_round_trip (H := sample_dispatch) [0x00; 0x00] mcp_handler mcp_handler).
  - simpl. lia.
  - reflexivity.
  - reflexivity.
  - reflexivity.
Defined.

Lemma end_end_after_partial_frame_witness :
  let h := frame_handler [0x01; 0x07] in
  let run := process_serial (H := sample_dispatch) [SLIP_END; SLIP_END] in
  state (exec run h) = MCP_RECEIVING /\
  frame_pos (exec run h) = 0 /\
  emitted (trace run h) = [[0x01; 0x07]].
Proof.
  apply (end_end_after_partial_frame (H := sample_dispatch) [0x01; 0x07]
           (frame_handler [0x01; 0x07])).
  repeat split; reflexivity.
Defined.

Lemma short_frame_no_response_witness :
  let h := frame_handler [0x2A] in
  (exec (process_frame (H := sample_dispatch)) h = h /\
   wire (trace (process_frame (H := sample_dispatch)) h) = [] /\
   dispatched (trace (process_frame (H := sample_dispatch)) h) = []) /\
  let h' := exec (process_byte (H := sample_dispatch) SLIP_END) h in
  trace (process_byte (H := sample_dispatch) SLIP_END) h
    = [SerialWrite (chr "R"); SerialWrite (chr "E")] /\
  state h' = MCP_IDLE /\
  frame_pos h' = 0 /\
  forall v : list Z,
    (2 <= length v <= 256)%nat ->
    emitted (trace (process_serial (H := sample_dispatch)
                      ([SLIP_END] ++ concat (map slip_escape v) ++ [SLIP_END])) h')
    = [v].
Proof.
  apply (short_frame_no_response (H := sample_dispatch) [0x2A] (frame_handler [0x2A])).
  - repeat split; reflexivity.
  - simpl. lia.
Defined.

Lemma response_frame_crc_witness :
  let h := frame_handler [0x00; 0x00] in
  wire (trace (process_frame (H := sample_dispatch)) h)
    = slip_encode (deviceId_response ++ [crc8 deviceId_response 8]) /\
  crc8 deviceId_response 8 = 0x68.
Proof.
  destruct (response_frame_crc (H := sample_dispatch)
              (frame_buffer (frame_handler [0x00; 0x00])) 2 MCP_RECEIVING (replicate 256 0))
    as (Hwire & Hframe & _).
  - lia.
  - reflexivity.
  - reflexivity.
  - simpl. lia.
  - reflexivity.
  - split; [|reflexivity]. rewrite Hframe in Hwire. exact Hwire.
Defined.

(** ** More on the decoder: what it writes and what it ignores *)

Ltac own_events :=
  repeat (constructor; try (intros Hx; vm_compute in Hx; discriminate Hx)).

Section DecoderTraces.
Context `{MCPBindings}.

Lemma own_emitted (t : list event) : Forall own_event t -> emitted t = [].
Proof.
  induction 1 as [|e t He _ IH]; [reflexivity|].
  destruct e; cbn in *; try contradiction; exact IH.
Qed.

Lemma own_dispatched (t : list event) : Forall own_event t -> dispatched t = [].
Proof.
  induction 1 as [|e t He _ IH]; [reflexivity|].
  destruct e; cbn in *; try contradiction; exact IH.
Qed.

Lemma own_wire (t : list event) :
  Forall own_event t -> Forall (fun b => b <> SLIP_END) (wire t).
Proof.
  induction 1 as [|e t He _ IH]; [constructor|].
  destruct e; cbn in *; try contradiction; try exact IH.
  constructor; assumption.
Qed.

(** One iteration of the loop either stays within the decoder, or is the END
    of a frame of two bytes or more and runs [process_frame]. *)
Lemma process_byte_cases (b : Z) (h : MCPHandler) :
  Forall own_event (trace (process_byte b) h) \/
  exists t,
    trace process_frame h =
      ProcessFrame (take (Z.to_nat (frame_pos h)) (frame_buffer h)) :: t /\
    trace (process_byte b) h =
      [SerialWrite (chr "R"); SerialWrite (chr "E"); SerialWrite (chr "P")] ++
      trace process_frame h.
Proof.
  destruct h as [fb pos st rb]. destruct st.
  - left. destruct (Z.eq_dec b SLIP_END) as [->|Hb]; unfold trace.
    + rewrite idle_end. own_events.
    + rewrite idle_other by exact Hb. own_events.
  - destruct (Z.eq_dec b SLIP_END) as [->|Hend].
    { destruct (Z.le_gt_cases pos 1) as [Hle|Hgt].
      - left. unfold trace. rewrite receiving_end_short by exact Hle. own_events.
      - right.
        destruct (receiving_end_frame fb pos rb) as (rb' & t & Hpf & _ & _ & Hrun);
          [lia|].
        exists t. unfold trace. rewrite Hrun, Hpf. split; reflexivity. }
    left. destruct (Z.eq_dec b SLIP_ESC) as [->|Hesc].
    { unfold trace. rewrite receiving_esc. own_events. }
    destruct (Z.lt_ge_cases pos MAX_FRAME_SIZE) as [Hlt|Hge]; unfold trace.
    + rewrite receiving_data by assumption. own_events.
    + rewrite receiving_overflow by assumption. own_events.
  - left. destruct (Z.lt_ge_cases pos MAX_FRAME_SIZE) as [Hlt|Hge].
    + destruct (Z.eq_dec b SLIP_ESC_END) as [->|He].
      { unfold trace. rewrite escaped_esc_end by assumption. own_events. }
      destruct (Z.eq_dec b SLIP_ESC_ESC) as [->|Hs]; unfold trace.
      * rewrite escaped_esc_esc by assumption. own_events.
      * rewrite escaped_other by assumption. own_events.
    + destruct (Z.eq_dec b SLIP_ESC_END) as [He|He];
        [|destruct (Z.eq_dec b SLIP_ESC_ESC) as [Hs|Hs]]; unfold trace.
      * rewrite escaped_overflow by auto. subst b. own_events.
      * rewrite escaped_overflow by auto. subst b. own_events.
      * rewrite escaped_other by assumption. own_events.
Qed.

Lemma trace_cons (x : Z) (a : list Z) (h : MCPHandler) :
  trace (process_serial (x :: a)) h =
  trace (process_byte x) h ++ trace (process_serial a) (exec (process_byte x) h).
Proof. unfold trace at 1. rewrite process_serial_cons. reflexivity. Qed.

Lemma exec_cons (x : Z) (a : list Z) (h : MCPHandler) :
  exec (process_serial (x :: a)) h = exec (process_serial a) (exec (process_byte x) h).
Proof. unfold exec at 1. rewrite process_serial_cons. reflexivity. Qed.

Lemma trace_app (a b : list Z) (h : MCPHandler) :
  trace (process_serial (a ++ b)) h =
  trace (process_serial a) h ++ trace (process_serial b) (exec (process_serial a) h).
Proof. unfold trace at 1. rewrite process_serial_app. reflexivity. Qed.

Lemma exec_app (a b : list Z) (h : MCPHandler) :
  exec (process_serial (a ++ b)) h = exec (process_serial b) (exec (process_serial a) h).
Proof. unfold exec at 1. rewrite process_serial_app. reflexivity. Qed.

(** X1: when a run hands no frame to [process_frame], every byte it wrote
    to the serial line is a debug character and none is the END marker. *)
Theorem no_frame_no_end_marker (input : list Z) (h : MCPHandler) :
  emitted (trace (process_serial input) h) = [] ->
  Forall (fun b => b <> SLIP_END) (wire (trace (process_serial input) h)).
Proof.
  revert h. induction input as [|x input IH]; intros h He; [constructor|].
  rewrite trace_cons in *. rewrite emitted_app in He.
  apply app_eq_nil in He. destruct He as [He1 He2].
  unfold wire. rewrite omap_app. apply Forall_app. split.
  - destruct (process_byte_cases x h) as [Hown|(t & Hpf & Hrun)].
    + apply own_wire, Hown.
    + rewrite Hrun, Hpf in He1. discriminate He1.
  - apply IH, He2.
Qed.

Lemma idle_noise_run (noise : list Z) (fb : list Z) (pos : Z) (rb : list Z) :
  Forall (fun b => b <> SLIP_END) noise ->
  process_serial noise (mkMCPHandler fb pos MCP_IDLE rb) =
  ((), mkMCPHandler fb pos MCP_IDLE rb, map (fun _ => SerialWrite (chr "R")) noise).
Proof.
  intros Hnoise.
  induction Hnoise as [|b noise Hb _ IH]; [reflexivity|].
  erewrite process_serial_step by (apply idle_other; exact Hb).
  unfold exec, trace. rewrite IH. reflexivity.
Qed.

(** X2: an idle decoder ignores every byte that is not END: the handler is
    as before, and the only thing written is the debug character [R], once
    per byte. *)
Theorem idle_ignores_noise (noise : list Z) (h : MCPHandler) :
  state h = MCP_IDLE ->
  Forall (fun b => b <> SLIP_END) noise ->
  process_serial noise h = ((), h, map (fun _ => SerialWrite (chr "R")) noise).
Proof.
  destruct h as [fb pos st rb]. cbn [state]. intros -> Hnoise.
  apply idle_noise_run, Hnoise.
Qed.

End DecoderTraces.

Lemma no_frame_no_end_marker_witness :
  Forall (fun b => b <> SLIP_END)
    (wire (trace (process_serial (H := sample_dispatch) [SLIP_END; 0x41; SLIP_END]) mcp_handler)).
Proof.
  apply (no_frame_no_end_marker (H := sample_dispatch)). reflexivity.
Defined.

Lemma idle_ignores_noise_witness :
  process_serial (H := sample_dispatch) [0x3E; SLIP_ESC; SLIP_CLEAR] mcp_handler =
  ((), mcp_handler, map (fun _ => SerialWrite (chr "R")) [0x3E; SLIP_ESC; SLIP_CLEAR]).
Proof.
  apply (idle_ignores_noise (H := sample_dispatch)).
  - reflexivity.
  - repeat constructor; discriminate.
Defined.

(** ** CRC-8: an altered byte changes the checksum *)

Section CrcInjective.

Lemma byte_forall (p : Z -> bool) :
  forallb p (seqZ 0 256) = true -> forall x, is_byte x -> p x = true.
Proof.
  intros Hall x Hx. rewrite forallb_forall in Hall. apply Hall.
  apply list_elem_of_In, elem_of_seqZ. unfold is_byte in Hx. lia.
Qed.

Lemma crc8_unbit_bit (x : Z) : is_byte x -> crc8_unbit (crc8_bit x) = x.
Proof.
  intros Hx. apply Z.eqb_eq.
  apply (byte_forall (fun x => crc8_unbit (crc8_bit x) =? x)); [|exact Hx].
  vm_compute. reflexivity.
Qed.

Lemma crc8_bit_inj (x y : Z) :
  is_byte x -> is_byte y -> crc8_bit x = crc8_bit y -> x = y.
Proof.
  intros Hx Hy Heq.
  rewrite <- (crc8_unbit_bit x Hx), <- (crc8_unbit_bit y Hy), Heq. reflexivity.
Qed.

Lemma crc8_rounds_byte (n : nat) (x : Z) : is_byte x -> is_byte (Nat.iter n crc8_bit x).
Proof.
  intros Hx. destruct n as [|n]; [exact Hx|]. cbn [Nat.iter nat_rect].
  apply crc8_bit_range.
Qed.

Lemma crc8_rounds_inj (n : nat) (x y : Z) :
  is_byte x -> is_byte y -> Nat.iter n crc8_bit x = Nat.iter n crc8_bit y -> x = y.
Proof.
  intros Hx Hy. induction n as [|n IH]; [auto|].
  cbn [Nat.iter nat_rect]. intros Heq. apply IH.
  apply crc8_bit_inj; [apply crc8_rounds_byte, Hx|apply crc8_rounds_byte, Hy|exact Heq].
Qed.

Lemma uint8_lxor (a b : Z) : uint8 (Z.lxor a b) = Z.lxor (uint8 a) (uint8 b).
Proof. rewrite !uint8_land. apply land_lxor_l. Qed.

Lemma uint8_byte (b : Z) : is_byte b -> uint8 b = b.
Proof. intros Hb. unfold uint8. apply Z.mod_small. exact Hb. Qed.

Lemma lxor_cancel_r (a b c : Z) : Z.lxor a c = Z.lxor b c -> a = b.
Proof.
  intros Heq. apply (f_equal (fun z => Z.lxor z c)) in Heq.
  rewrite !Z.lxor_assoc, Z.lxor_nilpotent, !Z.lxor_0_r in Heq. exact Heq.
Qed.

Lemma lxor_cancel_l (a b c : Z) : Z.lxor c a = Z.lxor c b -> a = b.
Proof. rewrite !(Z.lxor_comm c). apply lxor_cancel_r. Qed.

Lemma crc8_byte_inj_crc (c c' p : Z) :
  is_byte c -> is_byte c' -> crc8_byte c p = crc8_byte c' p -> c = c'.
Proof.
  intros Hc Hc' Heq. unfold crc8_byte in Heq.
  apply crc8_rounds_inj in Heq; try apply uint8_range.
  rewrite !uint8_lxor, (uint8_byte c Hc), (uint8_byte c' Hc') in Heq.
  exact (lxor_cancel_r _ _ _ Heq).
Qed.

Lemma crc8_byte_inj_byte (c b b' : Z) :
  is_byte b -> is_byte b' -> crc8_byte c b = crc8_byte c b' -> b = b'.
Proof.
  intros Hb Hb' Heq. unfold crc8_byte in Heq.
  apply crc8_rounds_inj in Heq; try apply uint8_range.
  rewrite !uint8_lxor, (uint8_byte b Hb), (uint8_byte b' Hb') in Heq.
  exact (lxor_cancel_l _ _ _ Heq).
Qed.

Lemma crc8_fold_byte (data : list Z) (c : Z) :
  is_byte c -> is_byte (fold_left crc8_byte data c).
Proof.
  revert c. induction data as [|b data IH]; intros c Hc; [exact Hc|].
  cbn [fold_left]. apply IH, crc8_byte_range.
Qed.

Lemma crc8_fold_inj (data : list Z) (c c' : Z) :
  is_byte c -> is_byte c' ->
  fold_left crc8_byte data c = fold_left crc8_byte data c' -> c = c'.
Proof.
  revert c c'. induction data as [|b data IH]; intros c c' Hc Hc' Heq; [exact Heq|].
  cbn [fold_left] in Heq. apply IH in Heq; try apply crc8_byte_range.
  exact (crc8_byte_inj_crc _ _ _ Hc Hc' Heq).
Qed.

End CrcInjective.

Lemma crc8_detects_one_byte_aux (pre post : list Z) (b b' : Z) :
  is_byte b -> is_byte b' -> b <> b' ->
  crc8 (pre ++ b :: post) (Z.of_nat (length (pre ++ b :: post))) <>
  crc8 (pre ++ b' :: post) (Z.of_nat (length (pre ++ b' :: post))).
Proof.
  intros Hb Hb' Hne.
  rewrite !crc8_fold, !fold_left_app. cbn [fold_left]. intros Heq.
  apply crc8_fold_inj in Heq; try apply crc8_byte_range.
  apply Hne. exact (crc8_byte_inj_byte _ _ _ Hb Hb' Heq).
Qed.

(** X3: two spans that differ in exactly one byte have different CRCs: a
    single altered byte, wherever it is, never goes unnoticed. *)
Theorem crc8_detects_one_byte (f f' : list Z) :
  one_byte_off f f' ->
  crc8 f (Z.of_nat (length f)) <> crc8 f' (Z.of_nat (length f')).
Proof.
  intros (pre & post & b & b' & -> & -> & Hb & Hb' & Hne).
  apply crc8_detects_one_byte_aux; assumption.
Qed.

Lemma crc8_detects_one_byte_witness :
  crc8 [0x01; 0x02; 0x03] 3 <> crc8 [0x01; 0x82; 0x03] 3.
Proof.
  apply (crc8_detects_one_byte [0x01; 0x02; 0x03] [0x01; 0x82; 0x03]).
  exists [0x01], [0x03], 0x02, 0x82.
  unfold is_byte. repeat split; try reflexivity; try lia.
Defined.

(** ** Frames through the decoder and into [process_frame] *)

Section FrameRuns.
Context `{MCPBindings}.

Lemma decode_escaped_byte_own (b : Z) (fb : list Z) (pos : Z) (rb : list Z) :
  pos < MAX_FRAME_SIZE ->
  exists t,
    process_serial (slip_escape b) (mkMCPHandler fb pos MCP_RECEIVING rb) =
    ((), mkMCPHandler (wr fb pos b) (pos + 1) MCP_RECEIVING rb, t) /\
    Forall own_event t.
Proof.
  intros Hpos. unfold slip_escape.
  destruct (Z.eqb_spec b SLIP_END) as [->|Hend];
    [|destruct (Z.eqb_spec b SLIP_ESC) as [->|Hesc]].
  - eexists.
    step ltac:(apply receiving_esc).
    step ltac:(apply escaped_esc_end; exact Hpos).
    rewrite process_serial_nil. split; [reflexivity|]. own_events.
  - eexists.
    step ltac:(apply receiving_esc).
    step ltac:(apply escaped_esc_esc; exact Hpos).
    rewrite process_serial_nil. split; [reflexivity|]. own_events.
  - eexists.
    step ltac:(apply receiving_data; assumption).
    rewrite process_serial_nil. split; [reflexivity|]. own_events.
Qed.

Lemma decode_payload_own (v : list Z) (fb : list Z) (pos : nat) (rb : list Z) :
  length fb = 256%nat ->
  (pos + length v <= 256)%nat ->
  exists fb' t,
    process_serial (concat (map slip_escape v))
      (mkMCPHandler fb (Z.of_nat pos) MCP_RECEIVING rb) =
    ((), mkMCPHandler fb' (Z.of_nat (pos + length v)) MCP_RECEIVING rb, t) /\
    Forall own_event t /\
    length fb' = 256%nat /\
    take (pos + length v) fb' = take pos fb ++ v.
Proof.
  revert fb pos. induction v as [|b v IH]; intros fb pos Hlen Hfit.
  - exists fb, []. cbn [map concat length]. rewrite Nat.add_0_r, app_nil_r.
    repeat split; auto.
  - cbn [length] in Hfit. cbn [map concat].
    destruct (decode_escaped_byte_own b fb (Z.of_nat pos) rb) as (t1 & Hrun1 & He1);
      [unfold MAX_FRAME_SIZE; lia|].
    destruct (IH (wr fb (Z.of_nat pos) b) (S pos)) as (fb' & t2 & Hrun2 & He2 & Hlen' & Htake);
      [rewrite length_wr; exact Hlen|lia|].
    exists fb', (t1 ++ t2).
    rewrite process_serial_app. unfold exec, trace. rewrite Hrun1. cbn [fst snd].
    replace (Z.of_nat pos + 1) with (Z.of_nat (S pos)) by lia.
    rewrite Hrun2. cbn [fst snd length].
    replace (pos + S (length v))%nat with (S pos + length v)%nat by lia.
    repeat split; auto.
    + apply Forall_app; split; assumption.
    + rewrite Htake, take_wr_snoc by lia. rewrite <- app_assoc. reflexivity.
Qed.

(** The reset prefix, the opening END and the payload, from an idle
    decoder: the payload sits at the front of the buffer. *)
Lemma decode_open (v : list Z) (fb : list Z) (pos : Z) (rb : list Z) :
  length fb = 256%nat ->
  (length v <= 256)%nat ->
  exists fb' t,
    process_serial ([SLIP_ESC; SLIP_CLEAR] ++ [SLIP_END] ++ concat (map slip_escape v))
      (mkMCPHandler fb pos MCP_IDLE rb) =
    ((), mkMCPHandler fb' (Z.of_nat (length v)) MCP_RECEIVING rb, t) /\
    Forall own_event t /\
    length fb' = 256%nat /\
    take (length v) fb' = v.
Proof.
  intros Hlen Hv.
  destruct (decode_payload_own v fb 0 rb Hlen) as (fb' & t & Hrun & Hown & Hlen' & Htake);
    [lia|].
  cbn [Nat.add] in *. rewrite take_0 in Htake. cbn [app] in Htake.
  change (Z.of_nat 0) with 0 in Hrun.
  eexists fb', _. cbn [app].
  step ltac:(apply idle_other; discriminate).
  step ltac:(apply idle_other; discriminate).
  step ltac:(apply idle_end).
  rewrite Hrun. cbn [fst snd]. repeat split; auto.
  cbn [app]. do 4 (constructor; [intros Hx; vm_compute in Hx; discriminate Hx|]).
  exact Hown.
Qed.

Lemma receiving_end_run (fb : list Z) (pos : Z) (rb : list Z) :
  1 < pos ->
  let h := mkMCPHandler fb pos MCP_RECEIVING rb in
  process_byte SLIP_END h =
  ((), mkMCPHandler fb 0 MCP_IDLE (response_buffer (exec process_frame h)),
   [SerialWrite (chr "R"); SerialWrite (chr "E"); SerialWrite (chr "P")] ++
   trace process_frame h).
Proof.
  intros Hpos h. subst h.
  destruct (receiving_end_frame fb pos rb Hpos) as (rb' & t & Hpf & _ & _ & Hrun).
  rewrite Hrun. unfold exec, trace. rewrite Hpf. reflexivity.
Qed.

(** A whole encoded frame, from an idle decoder with its buffer in place:
    the decoder is idle again, and the frame was handed over if it has two
    bytes or more. *)
Lemma decode_encoded_run (v : list Z) (fb : list Z) (pos : Z) (rb : list Z) :
  length fb = 256%nat ->
  (length v <= 256)%nat ->
  exists fb' rb' t,
    process_serial (slip_encode v) (mkMCPHandler fb pos MCP_IDLE rb) =
    ((), mkMCPHandler fb' 0 MCP_IDLE rb', t) /\
    length fb' = 256%nat /\
    emitted t = (if decide (2 <= length v)%nat then [v] else []).
Proof.
  intros Hlen Hv.
  destruct (decode_open v fb pos rb Hlen Hv) as (fb' & t & Hrun & Hown & Hlen' & Htake).
  assert (Hsplit : slip_encode v =
    ([SLIP_ESC; SLIP_CLEAR] ++ [SLIP_END] ++ concat (map slip_escape v)) ++ [SLIP_END]).
  { unfold slip_encode. rewrite <- !app_assoc. reflexivity. }
  rewrite Hsplit, process_serial_app.
  unfold exec, trace. rewrite Hrun. cbn [fst snd].
  destruct (decide (2 <= length v)%nat) as [Hlong|Hshort].
  - eexists fb', _, _.
    step ltac:(apply receiving_end_run; lia).
    rewrite process_serial_nil. cbn [fst snd].
    split; [reflexivity|]. split; [exact Hlen'|].
    destruct (process_frame_keeps fb' (Z.of_nat (length v)) MCP_RECEIVING rb)
      as (rb' & t' & Hpf & He' & _).
    unfold trace. rewrite Hpf. cbn [snd].
    rewrite !emitted_app, (own_emitted t Hown). cbn. fold (emitted t').
    rewrite He', Nat2Z.id, Htake. reflexivity.
  - eexists fb', _, _.
    step ltac:(apply receiving_end_short; lia).
    rewrite process_serial_nil. cbn [fst snd].
    split; [reflexivity|]. split; [exact Hlen'|].
    rewrite !emitted_app, (own_emitted t Hown). reflexivity.
Qed.

(** X4: a stream of encoded frames, each of at most 256 bytes, fed to an
    idle decoder: the frames of two bytes or more are handed to
    [process_frame] in the order sent, each once; the shorter ones are
    dropped. *)
Theorem decode_stream (vs : list (list Z)) (h : MCPHandler) :
  state h = MCP_IDLE ->
  length (frame_buffer h) = 256%nat ->
  Forall (fun v => (length v <= 256)%nat) vs ->
  emitted (trace (process_serial (concat (map slip_encode vs))) h) =
  filter (fun v => (2 <= length v)%nat) vs.
Proof.
  destruct h as [fb pos st rb]. cbn [state frame_buffer]. intros -> Hlen Hvs.
  revert fb pos rb Hlen.
  induction Hvs as [|v vs Hv _ IH]; intros fb pos rb Hlen; [reflexivity|].
  cbn [map concat]. rewrite trace_app, emitted_app.
  destruct (decode_encoded_run v fb pos rb Hlen Hv) as (fb' & rb' & t & Hrun & Hlen' & He).
  unfold exec, trace in *. rewrite Hrun. cbn [fst snd].
  rewrite He, (IH fb' 0 rb' Hlen').
  rewrite filter_cons. destruct (decide (2 <= length v)%nat); reflexivity.
Qed.

End FrameRuns.

Lemma decode_stream_witness :
  emitted (trace (process_serial (H := sample_dispatch)
                    (concat (map slip_encode [[0x00; 0x00]; [0x41]; [0x05; 0x1B]])))
             mcp_handler)
  = [[0x00; 0x00]; [0x05; 0x1B]].
Proof.
  apply (decode_stream (H := sample_dispatch) [[0x00; 0x00]; [0x41]; [0x05; 0x1B]] mcp_handler).
  - reflexivity.
  - reflexivity.
  - repeat constructor; simpl; lia.
Defined.

(** ** The CRC gate in front of dispatch *)

Section CrcGate.
Context `{MCPBindings}.

(** A frame [data ++ [c]] at the front of the buffer: what the check reads. *)
Lemma frame_in_buffer (fb data : list Z) (c : Z) :
  take (length (data ++ [c])) fb = data ++ [c] ->
  rd fb (Z.of_nat (length data)) = c /\
  take (length data) fb = data /\
  crc8 fb (Z.of_nat (length data)) = crc8 data (Z.of_nat (length data)).
Proof.
  intros Htake.
  assert (Hlen : (length data < length fb)%nat).
  { apply (f_equal length) in Htake. rewrite length_take, length_app in Htake.
    cbn [length] in Htake. lia. }
  assert (Hdata : take (length data) fb = data).
  { apply (f_equal (take (length data))) in Htake.
    rewrite take_take, length_app in Htake. cbn [length] in Htake.
    rewrite Nat.min_l in Htake by lia.
    rewrite Htake, take_app_length. reflexivity. }
  split; [|split; [exact Hdata|]].
  - unfold rd. rewrite Nat2Z.id. apply list_lookup_total_correct.
    assert (Hl : (data ++ [c]) !! length data = Some c).
    { rewrite lookup_app_r by lia. rewrite Nat.sub_diag. reflexivity. }
    rewrite <- Htake in Hl. rewrite lookup_take_lt in Hl; [exact Hl|].
    rewrite length_app. cbn [length]. lia.
  - rewrite crc8_take by lia. rewrite Nat2Z.id, Hdata. reflexivity.
Qed.

Lemma dispatched_serial (bs : list Z) : dispatched (map SerialWrite bs) = [].
Proof. induction bs as [|b bs IH]; [reflexivity|]. exact IH. Qed.

Lemma dispatched_app (t1 t2 : list event) :
  dispatched (t1 ++ t2) = dispatched t1 ++ dispatched t2.
Proof. apply omap_app. Qed.

Lemma dispatched_call (f c : list Z) (bs : list Z) :
  dispatched (ProcessFrame f :: Dispatch c :: map SerialWrite bs) = [c].
Proof.
  change (c :: dispatched (map SerialWrite bs) = [c]).
  rewrite dispatched_serial. reflexivity.
Qed.

Lemma process_frame_dispatches (fb : list Z) (pos : Z) (st : MCPState) (rb : list Z) :
  2 <= pos ->
  rd fb (pos - 1) = crc8 fb (pos - 1) ->
  dispatched (trace process_frame (mkMCPHandler fb pos st rb)) =
  [take (Z.to_nat (pos - 1)) fb].
Proof.
  intros Hpos Hcrc. unfold trace.
  destruct (Z.eq_dec (dr_result (dispatch fb (pos - 1) rb (MAX_FRAME_SIZE - 1))) 0)
    as [Hres|Hres].
  - rewrite process_frame_success by assumption. cbn [snd]. apply dispatched_call.
  - rewrite process_frame_dispatch_error by assumption. cbn [snd]. apply dispatched_call.
Qed.

(** X5: a command of 1 to 255 bytes followed by its CRC, encoded and fed to
    an idle decoder, passes the check: [dispatch] is called exactly once, on
    exactly the command bytes. *)
Theorem valid_command_dispatched (cmd : list Z) (h : MCPHandler) :
  state h = MCP_IDLE ->
  length (frame_buffer h) = 256%nat ->
  (1 <= length cmd <= 255)%nat ->
  dispatched
    (trace (process_serial (slip_encode (cmd ++ [crc8 cmd (Z.of_nat (length cmd))]))) h)
  = [cmd].
Proof.
  destruct h as [fb pos st rb]. cbn [state frame_buffer]. intros -> Hlen Hcmd.
  set (c := crc8 cmd (Z.of_nat (length cmd))).
  assert (Hflen : length (cmd ++ [c]) = S (length cmd))
    by (rewrite length_app; cbn [length]; lia).
  destruct (decode_open (cmd ++ [c]) fb pos rb Hlen) as (fb' & t & Hrun & Hown & Hlen' & Htake);
    [lia|].
  destruct (frame_in_buffer fb' cmd c Htake) as (Hrd & Hdata & Hcrc).
  assert (Hsplit : slip_encode (cmd ++ [c]) =
    ([SLIP_ESC; SLIP_CLEAR] ++ [SLIP_END] ++ concat (map slip_escape (cmd ++ [c]))) ++ [SLIP_END]).
  { unfold slip_encode. rewrite <- !app_assoc. reflexivity. }
  rewrite Hsplit, trace_app, dispatched_app.
  unfold exec, trace at 1. rewrite Hrun. cbn [fst snd].
  rewrite (own_dispatched t Hown), trace_cons, dispatched_app. cbn [app].
  unfold trace at 1. rewrite receiving_end_run by lia. cbn [snd].
  rewrite dispatched_app, Hflen.
  rewrite process_frame_dispatches.
  - replace (Z.to_nat (Z.of_nat (S (length cmd)) - 1)) with (length cmd) by lia.
    rewrite Hdata. reflexivity.
  - lia.
  - replace (Z.of_nat (S (length cmd)) - 1) with (Z.of_nat (length cmd)) by lia.
    rewrite Hrd, Hcrc. reflexivity.
Qed.

(** X6: a well-formed frame in which exactly one byte was altered, be it a
    data byte or the CRC byte, is rejected: [dispatch] is not called, the
    handler is as before, and the error frame goes out. *)
Theorem corrupted_frame_rejected (f f' : list Z) (h : MCPHandler) :
  frame_valid f ->
  one_byte_off f f' ->
  receiving f' h ->
  (2 <= length f')%nat ->
  dispatched (trace process_frame h) = [] /\
  exec process_frame h = h /\
  wire (trace process_frame h) = slip_encode [0xFF; 0xF3].
Proof.
  intros (data & Hf) (pre & post & b & b' & Hf1 & Hf' & Hb & Hb' & Hne) Hrecv Hlen.
  destruct h as [fb pos st rb]. unfold receiving in Hrecv.
  cbn [state frame_pos frame_buffer] in Hrecv.
  destruct Hrecv as (-> & -> & Htake & Hfb).
  assert (Hbad : rd fb (Z.of_nat (length f') - 1) <> crc8 fb (Z.of_nat (length f') - 1)).
  { rewrite Hf1 in Hf. subst f'.
    destruct post as [|c post' _] using rev_ind.
    - (* the CRC byte itself *)
      apply app_inj_tail in Hf. destruct Hf as [<- Hbc].
      destruct (frame_in_buffer fb pre b' Htake) as (Hrd & _ & Hcrc).
      rewrite length_app. cbn [length].
      replace (Z.of_nat (length pre + 1) - 1) with (Z.of_nat (length pre)) by lia.
      rewrite Hrd, Hcrc, <- Hbc. auto.
    - (* a data byte *)
      change (pre ++ b :: post' ++ [c]) with (pre ++ (b :: post') ++ [c]) in Hf.
      rewrite app_assoc in Hf. apply app_inj_tail in Hf. destruct Hf as [Hdata Hc].
      change (pre ++ b' :: post' ++ [c]) with (pre ++ (b' :: post') ++ [c]) in Htake.
      rewrite app_assoc in Htake.
      destruct (frame_in_buffer fb (pre ++ b' :: post') c Htake) as (Hrd & _ & Hcrc).
      change (pre ++ b' :: post' ++ [c]) with (pre ++ (b' :: post') ++ [c]).
      rewrite app_assoc, length_app. cbn [length].
      replace (Z.of_nat (length (pre ++ b' :: post') + 1) - 1)
        with (Z.of_nat (length (pre ++ b' :: post'))) by lia.
      rewrite Hrd, Hcrc, Hc, <- Hdata.
      apply crc8_detects_one_byte_aux; assumption. }
  unfold exec, trace. rewrite process_frame_crc_error by (try assumption; lia).
  cbn [fst snd]. repeat split.
Qed.

End CrcGate.

Lemma valid_command_dispatched_witness :
  dispatched
    (trace (process_serial (H := sample_dispatch)
              (slip_encode ([0x05; 0x64; 0x00] ++ [crc8 [0x05; 0x64; 0x00] 3]))) mcp_handler)
  = [[0x05; 0x64; 0x00]].
Proof.
  apply (valid_command_dispatched (H := sample_dispatch) [0x05; 0x64; 0x00] mcp_handler).
  - reflexivity.
  - reflexivity.
  - simpl. lia.
Defined.

Lemma corrupted_frame_rejected_witness :
  let h := frame_handler [0x05; 0x65; 0x00; crc8 [0x05; 0x64; 0x00] 3] in
  dispatched (trace (process_frame (H := sample_dispatch)) h) = [] /\
  exec (process_frame (H := sample_dispatch)) h = h /\
  wire (trace (process_frame (H := sample_dispatch)) h) = slip_encode [0xFF; 0xF3].
Proof.
  apply (corrupted_frame_rejected (H := sample_dispatch)
           [0x05; 0x64; 0x00; crc8 [0x05; 0x64; 0x00] 3]
           [0x05; 0x65; 0x00; crc8 [0x05; 0x64; 0x00] 3]).
  - exists [0x05; 0x64; 0x00]. reflexivity.
  - exists [0x05], [0x00; crc8 [0x05; 0x64; 0x00] 3], 0x64, 0x65.
    unfold is_byte. repeat split; try reflexivity; try lia.
  - repeat split; reflexivity.
  - simpl. lia.
Defined.

(** ** Frames longer than the buffer *)

Lemma run_exec (m : M ()) (h h' : MCPHandler) (t : list event) :
  m h = ((), h', t) -> exec m h = h'.
Proof. intros Hm. unfold exec. rewrite Hm. reflexivity. Qed.

Lemma run_trace (m : M ()) (h h' : MCPHandler) (t : list event) :
  m h = ((), h', t) -> trace m h = t.
Proof. intros Hm. unfold trace. rewrite Hm. reflexivity. Qed.

Lemma run_app `{MCPBindings} (a b : list Z) (h h1 h2 : MCPHandler) (t1 t2 : list event) :
  process_serial a h = ((), h1, t1) ->
  process_serial b h1 = ((), h2, t2) ->
  process_serial (a ++ b) h = ((), h2, t1 ++ t2).
Proof.
  intros Ha Hb. rewrite process_serial_app.
  rewrite (run_exec _ _ _ _ Ha), (run_trace _ _ _ _ Ha).
  rewrite (run_exec _ _ _ _ Hb), (run_trace _ _ _ _ Hb). reflexivity.
Qed.

Lemma run_cons `{MCPBindings} (x : Z) (b : list Z) (h h1 h2 : MCPHandler)
    (t1 t2 : list event) :
  process_byte x h = ((), h1, t1) ->
  process_serial b h1 = ((), h2, t2) ->
  process_serial (x :: b) h = ((), h2, t1 ++ t2).
Proof.
  intros Hx Hb. rewrite (process_serial_step _ _ _ _ _ Hx).
  rewrite (run_exec _ _ _ _ Hb), (run_trace _ _ _ _ Hb). reflexivity.
Qed.

(** Replace a run whose result is known. *)
Ltac run_with Hm :=
  rewrite ?(run_exec _ _ _ _ Hm), ?(run_trace _ _ _ _ Hm).

Section Oversize.
Context `{MCPBindings}.

Lemma escaped_no_end (v : list Z) :
  Forall (fun x => x <> SLIP_END) (concat (map slip_escape v)).
Proof.
  apply Forall_concat, Forall_map, Forall_forall. intros b _.
  apply slip_escape_no_end.
Qed.

Lemma slip_escape_plain (b : Z) : plain b -> slip_escape b = [b].
Proof.
  intros [Hend Hesc]. unfold slip_escape.
  rewrite (proj2 (Z.eqb_neq _ _) Hend), (proj2 (Z.eqb_neq _ _) Hesc). reflexivity.
Qed.

Lemma slip_encode_split (body : list Z) (b : Z) (rest : list Z) :
  slip_encode (body ++ b :: rest) =
  ([SLIP_ESC; SLIP_CLEAR] ++ [SLIP_END] ++ concat (map slip_escape body)) ++
  slip_escape b ++ concat (map slip_escape rest) ++ [SLIP_END].
Proof.
  unfold slip_encode. rewrite map_app, concat_app. cbn [map concat].
  rewrite <- !app_assoc. reflexivity.
Qed.

(** X7: a frame of more than 256 bytes whose 257th byte travels unescaped
    is dropped whole: nothing is handed to [process_frame].  The byte that
    does not fit resets the decoder, the rest is ignored, and the closing
    END is then taken as the start of a frame. *)
Theorem oversize_frame_dropped (body : list Z) (b : Z) (rest : list Z) (h : MCPHandler) :
  state h = MCP_IDLE ->
  length (frame_buffer h) = 256%nat ->
  length body = 256%nat ->
  plain b ->
  let run := process_serial (slip_encode (body ++ b :: rest)) in
  emitted (trace run h) = [] /\
  state (exec run h) = MCP_RECEIVING /\
  frame_pos (exec run h) = 0.
Proof.
  destruct h as [fb pos st rb]. cbn [state frame_buffer]. intros -> Hlen Hbody Hb.
  destruct (decode_open body fb pos rb Hlen) as (fb' & t & Hrun & Hown & Hlen' & _);
    [lia|].
  rewrite Hbody in Hrun. cbv zeta.
  rewrite slip_encode_split, (slip_escape_plain b Hb).
  destruct Hb as [Hend Hesc].
  assert (Hov := receiving_overflow b fb' (Z.of_nat 256) rb Hend Hesc
                   ltac:(unfold MAX_FRAME_SIZE; lia)).
  assert (Hnoise := idle_noise_run _ fb' 0 rb (escaped_no_end rest)).
  assert (Hopen := idle_end fb' 0 rb).
  assert (Hall : process_serial
            (([SLIP_ESC; SLIP_CLEAR] ++ [SLIP_END] ++ concat (map slip_escape body)) ++
             [b] ++ concat (map slip_escape rest) ++ [SLIP_END])
            (mkMCPHandler fb pos MCP_IDLE rb) =
          ((), mkMCPHandler fb' 0 MCP_RECEIVING rb,
           t ++ [SerialWrite (chr "R"); SerialWrite (chr "X")] ++
           map (fun _ => SerialWrite (chr "R")) (concat (map slip_escape rest)) ++
           [SerialWrite (chr "R"); SerialWrite (chr "S")] ++ [])).
  { eapply run_app; [exact Hrun|].
    eapply run_cons; [exact Hov|].
    eapply run_app; [exact Hnoise|].
    eapply run_cons; [exact Hopen|reflexivity]. }
  run_with Hall. repeat split.
  rewrite !emitted_app, (own_emitted t Hown).
  rewrite (own_emitted (map _ _)); [reflexivity|].
  apply Forall_map, Forall_forall. intros x _ Hx. vm_compute in Hx. discriminate Hx.
Qed.

(** X8: a frame of more than 256 bytes whose 257th byte is END or ESC, sent
    escaped: the escape that does not fit empties the buffer and the decoder
    goes on receiving, so the bytes after it are taken as a frame of their
    own and handed to [process_frame] when there are 2 to 256 of them. *)
Theorem oversize_frame_tail (body : list Z) (e : Z) (tail : list Z) (h : MCPHandler) :
  state h = MCP_IDLE ->
  length (frame_buffer h) = 256%nat ->
  length body = 256%nat ->
  e = SLIP_END \/ e = SLIP_ESC ->
  (length tail <= 256)%nat ->
  emitted (trace (process_serial (slip_encode (body ++ e :: tail))) h) =
  (if decide (2 <= length tail)%nat then [tail] else []).
Proof.
  destruct h as [fb pos st rb]. cbn [state frame_buffer]. intros -> Hlen Hbody He Htail.
  destruct (decode_open body fb pos rb Hlen) as (fb' & t & Hrun & Hown & Hlen' & _);
    [lia|].
  rewrite Hbody in Hrun.
  destruct (decode_payload_own tail fb' 0 rb Hlen') as (fb2 & t2 & Hrun2 & Hown2 & Hlen2 & Htake2);
    [lia|].
  cbn [Nat.add] in *. rewrite take_0 in Htake2. cbn [app] in Htake2.
  change (Z.of_nat 0) with 0 in Hrun2.
  assert (Hesc : exists e', (e' = SLIP_ESC_END \/ e' = SLIP_ESC_ESC) /\
                            slip_escape e = [SLIP_ESC; e']).
  { destruct He as [-> | ->]; [exists SLIP_ESC_END|exists SLIP_ESC_ESC]; auto. }
  destruct Hesc as (e' & He' & Hesc).
  assert (Hin := receiving_esc fb' (Z.of_nat 256) rb).
  assert (Hov := escaped_overflow e' fb' (Z.of_nat 256) rb He'
                   ltac:(unfold MAX_FRAME_SIZE; lia)).
  rewrite slip_encode_split, Hesc.
  assert (Hdbg : Forall own_event
            ([SerialWrite (chr "R");
              (if e' =? SLIP_ESC_END then SerialWrite (chr "e") else SerialWrite (chr "s"));
              SerialWrite (chr "X")])).
  { destruct He' as [-> | ->]; own_events. }
  destruct (decide (2 <= length tail)%nat) as [Hlong|Hshort].
  - assert (Hend := receiving_end_run fb2 (Z.of_nat (length tail)) rb ltac:(lia)).
    cbv zeta in Hend.
    destruct (process_frame_keeps fb2 (Z.of_nat (length tail)) MCP_RECEIVING rb)
      as (rb' & t' & Hpf & Het' & _).
    rewrite (run_trace _ _ _ _ Hpf) in Hend.
    erewrite run_trace.
    2:{ eapply run_app; [exact Hrun|].
        eapply run_cons; [exact Hin|].
        eapply run_cons; [exact Hov|].
        eapply run_app; [exact Hrun2|].
        eapply run_cons; [exact Hend|reflexivity]. }
    rewrite !emitted_app, (own_emitted t Hown), (own_emitted t2 Hown2).
    rewrite (own_emitted [_; _]) by own_events.
    rewrite (own_emitted _ Hdbg).
    cbn. fold (emitted t'). rewrite Het', Nat2Z.id, Htake2. reflexivity.
  - assert (Hend := receiving_end_short fb2 (Z.of_nat (length tail)) rb ltac:(lia)).
    erewrite run_trace.
    2:{ eapply run_app; [exact Hrun|].
        eapply run_cons; [exact Hin|].
        eapply run_cons; [exact Hov|].
        eapply run_app; [exact Hrun2|].
        eapply run_cons; [exact Hend|reflexivity]. }
    rewrite !emitted_app, (own_emitted t Hown), (own_emitted t2 Hown2).
    rewrite (own_emitted [_; _]) by own_events.
    rewrite (own_emitted _ Hdbg). reflexivity.
Qed.

End Oversize.

(** ** Size of an encoded frame *)

Section EncodedSize.

Lemma length_escaped (data : list Z) :
  length (concat (map slip_escape data)) =
  (length data + length (filter (fun b => b = SLIP_END \/ b = SLIP_ESC) data))%nat.
Proof.
  induction data as [|b data IH]; [reflexivity|].
  cbn [map concat]. rewrite length_app, IH, filter_cons. unfold slip_escape.
  destruct (Z.eqb_spec b SLIP_END) as [->|Hend].
  { rewrite decide_True by (left; reflexivity). cbn [length]. lia. }
  destruct (Z.eqb_spec b SLIP_ESC) as [->|Hesc].
  { rewrite decide_True by (right; reflexivity). cbn [length]. lia. }
  rewrite decide_False by (intros [?|?]; contradiction). cbn [length]. lia.
Qed.

End EncodedSize.

(** X9: the encoder writes four framing bytes, one byte for each payload
    byte and one more for each payload byte that is END or ESC; so never
    more than [2 * len + 4] bytes, and [len + 4] when nothing needs an
    escape. *)
Theorem send_slip_frame_size (data : list Z) (h : MCPHandler) :
  let sent := wire (trace (send_slip_frame data (Z.of_nat (length data))) h) in
  length sent =
    (4 + length data + length (filter (fun b => b = SLIP_END \/ b = SLIP_ESC) data))%nat /\
  (length data + 4 <= length sent <= 2 * length data + 4)%nat.
Proof.
  cbv zeta. unfold trace. rewrite send_slip_frame_run. cbn [snd].
  rewrite wire_serial, Nat2Z.id, span_all.
  assert (Hsize : length (slip_encode data) =
    (4 + length data + length (filter (fun b => b = SLIP_END \/ b = SLIP_ESC) data))%nat).
  { unfold slip_encode. rewrite !length_app, length_escaped. cbn [length]. lia. }
  split; [exact Hsize|].
  pose proof (length_filter (fun b => b = SLIP_END \/ b = SLIP_ESC) data). lia.
Qed.

Lemma oversize_frame_dropped_witness :
  let run := process_serial (H := sample_dispatch)
               (slip_encode (replicate 256 0x41 ++ 0x42 :: [0x43; 0x44])) in
  emitted (trace run mcp_handler) = [] /\
  state (exec run mcp_handler) = MCP_RECEIVING /\
  frame_pos (exec run mcp_handler) = 0.
Proof.
  apply (oversize_frame_dropped (H := sample_dispatch) (replicate 256 0x41) 0x42
           [0x43; 0x44] mcp_handler).
  - reflexivity.
  - reflexivity.
  - reflexivity.
  - split; discriminate.
Defined.

Lemma oversize_frame_tail_witness :
  emitted (trace (process_serial (H := sample_dispatch)
                    (slip_encode (replicate 256 0x41 ++ SLIP_END :: [0x43; 0x44])))
             mcp_handler)
  = [[0x43; 0x44]].
Proof.
  apply (oversize_frame_tail (H := sample_dispatch) (replicate 256 0x41) SLIP_END
           [0x43; 0x44] mcp_handler).
  - reflexivity.
  - reflexivity.
  - reflexivity.
  - left. reflexivity.
  - simpl. lia.
Defined.

(** ** The blinker sketch: LEDs and what the tools report *)

Section SketchFacts.
Context `{LedPins}.

Lemma setLedState_run (pin level : Z) (b : Board) :
  pins_ok ->
  let b' := setLedState pin level b in
  led greenPin b' = Some (if pin =? greenPin then level else LOW) /\
  led yellowPin b' = Some (if pin =? yellowPin then level else LOW) /\
  led redPin b' = Some (if pin =? redPin then level else LOW) /\
  currentLed b' = (if level =? HIGH then pin else -1).
Proof.
  intros (Hgy & Hgr & Hyr & _). cbv zeta.
  unfold setLedState, digitalWrite, led. cbn [levels currentLed].
  repeat split.
  - rewrite lookup_insert_ne by auto. rewrite lookup_insert_ne by auto.
    apply lookup_insert_eq.
  - rewrite lookup_insert_ne by auto. apply lookup_insert_eq.
  - apply lookup_insert_eq.
Qed.

Lemma eqb_decide (p q : Z) (x y : Z) :
  (if p =? q then x else y) = (if decide (p = q) then x else y).
Proof. destruct (Z.eqb_spec p q), (decide (p = q)); congruence. Qed.

(** Switching a pin on lights that LED and no other. *)
Lemma setLedState_high (pin : Z) (b : Board) :
  pins_ok ->
  only_lit pin (setLedState pin HIGH b) /\ currentLed (setLedState pin HIGH b) = pin.
Proof.
  intros Hok. destruct (setLedState_run pin HIGH b Hok) as (Hg & Hy & Hr & Hc).
  split; [|exact Hc].
  unfold only_lit. rewrite Hg, Hy, Hr, !eqb_decide. auto.
Qed.

Lemma setLedState_off (b : Board) :
  pins_ok ->
  only_lit (-1) (setLedState (-1) LOW b) /\ currentLed (setLedState (-1) LOW b) = -1.
Proof.
  intros Hok. destruct (setLedState_run (-1) LOW b Hok) as (Hg & Hy & Hr & Hc).
  destruct Hok as (_ & _ & _ & Hg1 & Hy1 & Hr1).
  split; [|exact Hc].
  unfold only_lit. rewrite Hg, Hy, Hr, !eqb_decide.
  rewrite !decide_False by congruence. auto.
Qed.

Lemma hardware_keeps (e : io) (b : Board) :
  levels (hardware e b) = levels b /\ currentLed (hardware e b) = currentLed b.
Proof. split; reflexivity. Qed.

Lemma only_lit_levels (p : Z) (b b' : Board) :
  levels b' = levels b -> only_lit p b -> only_lit p b'.
Proof. unfold only_lit, led. intros ->. auto. Qed.

Lemma blink_loop_lit (o : Z) (n : nat) (b : Board) :
  pins_ok ->
  let b' := blink_loop o (S n) b in
  only_lit (blink_target o) b' /\ currentLed b' = blink_target o.
Proof.
  intros Hok. revert b. induction n as [|n IH]; intros b.
  - cbn [blink_loop]. cbv zeta. unfold blink_target, blink_once.
    destruct (negb (o =? -1)).
    + destruct (setLedState_high o (delay 200 (setLedState (-1) LOW b)) Hok) as [Hl Hc].
      split; [|exact Hc]. eapply only_lit_levels; [|exact Hl]. reflexivity.
    + destruct (setLedState_high greenPin (delay 200 (setLedState (-1) LOW b)) Hok)
        as [Hl Hc].
      split; [|exact Hc]. eapply only_lit_levels; [|exact Hl]. reflexivity.
  - change (blink_loop o (S (S n)) b) with (blink_loop o (S n) (blink_once o b)).
    apply IH.
Qed.

Lemma busy_ms_app (l1 l2 : list io) : busy_ms (l1 ++ l2) = busy_ms l1 + busy_ms l2.
Proof.
  induction l1 as [|e l1 IH]; [reflexivity|].
  destruct e; cbn [app busy_ms]; rewrite IH; lia.
Qed.

Lemma setLedState_busy (pin level : Z) (b : Board) :
  busy_ms (ios (setLedState pin level b)) = busy_ms (ios b).
Proof.
  unfold setLedState, digitalWrite. cbn [ios].
  rewrite !busy_ms_app. cbn [busy_ms]. lia.
Qed.

Lemma delay_busy (ms : Z) (b : Board) :
  busy_ms (ios (delay ms b)) = busy_ms (ios b) + ms.
Proof. unfold delay, hardware. cbn [ios]. rewrite busy_ms_app. cbn [busy_ms]. lia. Qed.

Lemma blink_loop_busy (o : Z) (n : nat) (b : Board) :
  busy_ms (ios (blink_loop o n b)) = busy_ms (ios b) + 400 * Z.of_nat n.
Proof.
  revert b. induction n as [|n IH]; intros b; [cbn [blink_loop]; lia|].
  cbn [blink_loop]. rewrite IH. unfold blink_once. rewrite delay_busy.
  destruct (negb (o =? -1)); rewrite setLedState_busy, delay_busy, setLedState_busy; lia.
Qed.

(** X10: the tools keep [currentLed] and the LEDs in step.  After [setup]
    and after each switch tool, and after [blinkNTimes] on a board where it
    held, [currentLed] is -1 or one of the three LED pins, the LED on that
    pin is HIGH and the others are LOW (all LOW for -1). *)
Theorem led_state_kept (n : Z) (b : Board) :
  pins_ok ->
  led_state_ok (setup b) /\
  led_state_ok (switchToRed b) /\
  led_state_ok (switchToYellow b) /\
  led_state_ok (switchToGreen b) /\
  (led_state_ok b -> led_state_ok (blinkNTimes n b)).
Proof.
  intros Hok.
  assert (Hhigh : forall p b0, p = greenPin \/ p = yellowPin \/ p = redPin ->
                    led_state_ok (setLedState p HIGH b0)).
  { intros p b0 Hp. destruct (setLedState_high p b0 Hok) as [Hl Hc].
    unfold led_state_ok. rewrite Hc. split; [tauto|exact Hl]. }
  split; [|split; [|split; [|split]]].
  - unfold setup.
    destruct (setLedState_off
                (hardware (PinMode redPin OUTPUT)
                   (hardware (PinMode yellowPin OUTPUT)
                      (hardware (PinMode greenPin OUTPUT)
                         (hardware (SerialBegin 115200) b)))) Hok) as [Hl Hc].
    unfold led_state_ok. cbn [hardware currentLed] in *. rewrite Hc.
    split; [tauto|]. eapply only_lit_levels; [|exact Hl]. reflexivity.
  - apply Hhigh. tauto.
  - apply Hhigh. tauto.
  - apply Hhigh. tauto.
  - intros [Hcur Hlit]. unfold blinkNTimes.
    destruct (Z.to_nat n) as [|k]; [split; assumption|].
    destruct (blink_loop_lit (currentLed b) k b Hok) as [Hl Hc].
    unfold led_state_ok. rewrite Hc. split; [|exact Hl].
    unfold blink_target. destruct (Z.eqb_spec (currentLed b) (-1)); cbn [negb]; tauto.
Qed.

(** X11: on a board where [currentLed] and the LEDs are in step, the colour
    reported is the colour lit: [red], [yellow] or [green] exactly when that
    LED is HIGH, and [off] exactly when all three are LOW. *)
Theorem reported_colour_is_lit (b : Board) :
  pins_ok ->
  led_state_ok b ->
  (getActiveLedColor b = "red"%string <-> led redPin b = Some HIGH) /\
  (getActiveLedColor b = "yellow"%string <-> led yellowPin b = Some HIGH) /\
  (getActiveLedColor b = "green"%string <-> led greenPin b = Some HIGH) /\
  (getActiveLedColor b = "off"%string <->
     led redPin b = Some LOW /\ led yellowPin b = Some LOW /\ led greenPin b = Some LOW).
Proof.
  intros (Hgy & Hgr & Hyr & Hg1 & Hy1 & Hr1) [Hcur (Hg & Hy & Hr)].
  unfold getActiveLedColor. rewrite Hg, Hy, Hr. unfold HIGH, LOW.
  destruct Hcur as [Hc|[Hc|[Hc|Hc]]]; rewrite Hc;
    repeat match goal with
           | |- context [decide (?p = ?q)] => destruct (decide (p = q)); try congruence
           end;
    repeat match goal with
           | |- context [Z.eqb ?p ?q] => destruct (Z.eqb_spec p q); try congruence
           end;
    repeat split; try (intros; discriminate); auto;
    try (intros (Hx1 & Hx2 & Hx3); discriminate).
Qed.

(** X12: [blinkNTimes].  With [n <= 0] the board is untouched.  With
    [n >= 1] the blink ends with one LED lit: the one [currentLed] named on
    entry, or the green one when it was -1; [currentLed] names it.  In every
    case the call spends [400 * n] milliseconds in [delay] (none for
    [n <= 0]). *)
Theorem blinkNTimes_result (n : Z) (b : Board) :
  pins_ok ->
  (n <= 0 -> blinkNTimes n b = b) /\
  (1 <= n ->
     let target := if decide (currentLed b = -1) then greenPin else currentLed b in
     currentLed (blinkNTimes n b) = target /\ only_lit target (blinkNTimes n b)) /\
  busy_ms (ios (blinkNTimes n b)) = busy_ms (ios b) + 400 * Z.max 0 n.
Proof.
  intros Hok. unfold blinkNTimes. split; [|split].
  - intros Hn. replace (Z.to_nat n) with 0%nat by lia. reflexivity.
  - intros Hn. cbv zeta.
    destruct (Z.to_nat n) as [|k] eqn:Hk; [lia|].
    destruct (blink_loop_lit (currentLed b) k b Hok) as [Hl Hc].
    assert (Ht : blink_target (currentLed b) =
                 (if decide (currentLed b = -1) then greenPin else currentLed b)).
    { unfold blink_target.
      destruct (Z.eqb_spec (currentLed b) (-1)), (decide (currentLed b = -1));
        cbn [negb]; congruence. }
    rewrite <- Ht. split; assumption.
  - rewrite blink_loop_busy. lia.
Qed.

(** X13: switching and asking.  After [switchToRed] the reported colour is
    [red] and the reported pin is the red pin, with only the red LED lit;
    likewise for yellow and green. *)
Theorem switch_then_report (b : Board) :
  pins_ok ->
  (getActiveLedColor (switchToRed b) = "red"%string /\
   getActiveLedPin (switchToRed b) = redPin /\ only_lit redPin (switchToRed b)) /\
  (getActiveLedColor (switchToYellow b) = "yellow"%string /\
   getActiveLedPin (switchToYellow b) = yellowPin /\ only_lit yellowPin (switchToYellow b)) /\
  (getActiveLedColor (switchToGreen b) = "green"%string /\
   getActiveLedPin (switchToGreen b) = greenPin /\ only_lit greenPin (switchToGreen b)).
Proof.
  intros Hok.
  destruct (setLedState_high redPin b Hok) as [Hlr Hcr].
  destruct (setLedState_high yellowPin b Hok) as [Hly Hcy].
  destruct (setLedState_high greenPin b Hok) as [Hlg Hcg].
  destruct Hok as (Hgy & Hgr & Hyr & _).
  unfold getActiveLedColor, getActiveLedPin, switchToRed, switchToYellow, switchToGreen.
  rewrite Hcr, Hcy, Hcg.
  split; [|split]; (split; [|split; assumption]);
    repeat match goal with
           | |- context [Z.eqb ?p ?q] => destruct (Z.eqb_spec p q); try congruence
           end;
    reflexivity.
Qed.

End SketchFacts.

Lemma pins_5_4_3_ok : pins_ok (H := pins_5_4_3).
Proof. unfold pins_ok. cbn. repeat split; discriminate. Defined.

Lemma pins_14_15_16_ok : pins_ok (H := pins_14_15_16).
Proof. unfold pins_ok. cbn. repeat split; discriminate. Defined.

Lemma led_state_kept_witness :
  led_state_ok (H := pins_5_4_3) (setup (H := pins_5_4_3) board0) /\
  led_state_ok (H := pins_14_15_16)
    (blinkNTimes (H := pins_14_15_16) 3 (setup (H := pins_14_15_16) board0)).
Proof.
  split.
  - apply (led_state_kept (H := pins_5_4_3) 0 board0 pins_5_4_3_ok).
  - apply (led_state_kept (H := pins_14_15_16) 3 (setup (H := pins_14_15_16) board0)
             pins_14_15_16_ok).
    apply (led_state_kept (H := pins_14_15_16) 0 board0 pins_14_15_16_ok).
Defined.

Lemma reported_colour_is_lit_witness :
  let b := switchToYellow (H := pins_5_4_3) board0 in
  getActiveLedColor (H := pins_5_4_3) b = "yellow"%string <-> led 4 b = Some HIGH.
Proof.
  apply (reported_colour_is_lit (H := pins_5_4_3) (switchToYellow (H := pins_5_4_3) board0)
           pins_5_4_3_ok).
  unfold led_state_ok, only_lit, led. cbn. repeat split; auto.
Defined.

Lemma blinkNTimes_result_witness :
  currentLed (blinkNTimes (H := pins_14_15_16) 2 board0) = 14 /\
  busy_ms (ios (blinkNTimes (H := pins_14_15_16) 2 board0)) = 800.
Proof.
  destruct (blinkNTimes_result (H := pins_14_15_16) 2 board0 pins_14_15_16_ok)
    as (_ & Hlit & Hbusy).
  split.
  - apply Hlit. lia.
  - exact Hbusy.
Defined.

Lemma switch_then_report_witness :
  getActiveLedColor (H := pins_5_4_3) (switchToGreen (H := pins_5_4_3) board0) = "green"%string.
Proof.
  apply (switch_then_report (H := pins_5_4_3) board0 pins_5_4_3_ok).
Defined.

(** ** An encoded frame met by a decoder that is not idle *)

Section NotIdle.
Context `{MCPBindings}.

(** From RECEIVING, whatever the buffer holds: the reset prefix empties the
    buffer but leaves the state, the opening END closes an empty frame, the
    payload is ignored and the closing END opens a frame. *)
Lemma encoded_frame_from_receiving (v : list Z) (fb : list Z) (pos : Z) (rb : list Z) :
  exists t,
    process_serial (slip_encode v) (mkMCPHandler fb pos MCP_RECEIVING rb) =
    ((), mkMCPHandler fb 0 MCP_RECEIVING rb, t) /\
    Forall own_event t.
Proof.
  assert (Hnoise := idle_noise_run _ fb 0 rb (escaped_no_end v)).
  eexists. split.
  - unfold slip_encode. cbn [app].
    eapply run_cons; [apply receiving_esc|].
    eapply run_cons; [apply escaped_other; discriminate|].
    eapply run_cons; [apply receiving_end_short; lia|].
    eapply run_app; [exact Hnoise|].
    eapply run_cons; [apply idle_end|reflexivity].
  - repeat (apply Forall_app; split); own_events.
    apply Forall_map, Forall_forall. intros x _ Hx. vm_compute in Hx. discriminate Hx.
Qed.

(** From ESCAPED: the ESC of the prefix is an invalid escape, CLEAR is
    stored as the only byte of a frame that the opening END closes. *)
Lemma encoded_frame_from_escaped (v : list Z) (fb : list Z) (pos : Z) (rb : list Z) :
  exists t,
    process_serial (slip_encode v) (mkMCPHandler fb pos MCP_ESCAPED rb) =
    ((), mkMCPHandler (wr fb 0 SLIP_CLEAR) 0 MCP_RECEIVING rb, t) /\
    Forall own_event t.
Proof.
  assert (Hnoise := idle_noise_run _ (wr fb 0 SLIP_CLEAR) 0 rb (escaped_no_end v)).
  eexists. split.
  - unfold slip_encode. cbn [app].
    eapply run_cons; [apply escaped_other; discriminate|].
    eapply run_cons;
      [apply receiving_data; [discriminate|discriminate|unfold MAX_FRAME_SIZE; lia]|].
    eapply run_cons; [apply receiving_end_short; lia|].
    eapply run_app; [exact Hnoise|].
    eapply run_cons; [apply idle_end|reflexivity].
  - repeat (apply Forall_app; split); own_events.
    apply Forall_map, Forall_forall. intros x _ Hx. vm_compute in Hx. discriminate Hx.
Qed.

Lemma encoded_stream_from_receiving (vs : list (list Z)) (fb : list Z) (pos : Z)
    (rb : list Z) :
  exists t,
    process_serial (concat (map slip_encode vs)) (mkMCPHandler fb pos MCP_RECEIVING rb) =
    ((), mkMCPHandler fb (if vs is [] then pos else 0) MCP_RECEIVING rb, t) /\
    Forall own_event t.
Proof.
  revert pos. induction vs as [|v vs IH]; intros pos.
  - exists []. split; [reflexivity|constructor].
  - destruct (encoded_frame_from_receiving v fb pos rb) as (t1 & Hrun1 & Hown1).
    destruct (IH 0) as (t2 & Hrun2 & Hown2).
    exists (t1 ++ t2). split; [|apply Forall_app; split; assumption].
    cbn [map concat]. eapply run_app; [exact Hrun1|].
    rewrite Hrun2. destruct vs; reflexivity.
Qed.

(** X14: a decoder that is not idle when an encoded frame starts never
    recovers on encoded frames alone: however many frames follow, each with
    its reset prefix, none is handed to [process_frame], [dispatch] is never
    called, and the decoder is in RECEIVING after each of them. *)
Theorem not_idle_drops_every_frame (v : list Z) (vs : list (list Z)) (h : MCPHandler) :
  state h <> MCP_IDLE ->
  let run := process_serial (concat (map slip_encode (v :: vs))) in
  emitted (trace run h) = [] /\
  dispatched (trace run h) = [] /\
  state (exec run h) = MCP_RECEIVING.
Proof.
  destruct h as [fb pos st rb]. cbn [state]. intros Hst. cbv zeta.
  cbn [map concat].
  assert (Hfirst : exists fb' t,
            process_serial (slip_encode v) (mkMCPHandler fb pos st rb) =
            ((), mkMCPHandler fb' 0 MCP_RECEIVING rb, t) /\ Forall own_event t).
  { destruct st; [contradiction| |].
    - destruct (encoded_frame_from_receiving v fb pos rb) as (t & Hrun & Hown). eauto.
    - destruct (encoded_frame_from_escaped v fb pos rb) as (t & Hrun & Hown). eauto. }
  destruct Hfirst as (fb' & t1 & Hrun1 & Hown1).
  destruct (encoded_stream_from_receiving vs fb' 0 rb) as (t2 & Hrun2 & Hown2).
  assert (Hall := run_app _ _ _ _ _ _ _ Hrun1 Hrun2).
  run_with Hall.
  assert (Hown : Forall own_event (t1 ++ t2)) by (apply Forall_app; split; assumption).
  rewrite (own_emitted _ Hown), (own_dispatched _ Hown). repeat split.
Qed.

End NotIdle.

Lemma not_idle_drops_every_frame_witness :
  let h := exec (process_serial (H := sample_dispatch) [SLIP_END]) mcp_handler in
  let run := process_serial (H := sample_dispatch)
               (concat (map slip_encode [[0x00; 0x00]; [0x00; 0x00]])) in
  emitted (trace run h) = [] /\
  dispatched (trace run h) = [] /\
  state (exec run h) = MCP_RECEIVING.
Proof.
  apply (not_idle_drops_every_frame (H := sample_dispatch) [0x00; 0x00] [[0x00; 0x00]]
           (exec (process_serial (H := sample_dispatch) [SLIP_END]) mcp_handler)).
  discriminate.
Defined.
